(** * gpmctl: the /dev/gpmctl control socket reader

    A shallow embedding of package [gpmctl] (the handshake record written by
    [NewGPM], the event record decoded by [GPM.Read], and the [String]
    methods of [Buttons], [EventType], [Margin] and [Event]), with the
    properties of its wire format.

    Conventions.
    - A Go integer of width [w] is a [Z]; every conversion the source writes
      ([uint8(..)], [int16(..)], ...) is the wrap-around function of the same
      name below.
    - [int] is 64 bits wide, as on the platforms [gpm] runs on, so that a
      conversion from [uint32] to [int] (or to [Margin]) changes nothing.
    - A [[]byte] is a [list byte]; [b[i:]] is [slice_from b i], which fails
      where Go panics.
    - A run-time panic is [None] in the [option] monad.
    - [net.Conn] is the type class [Conn]; a connection is a value that is
      threaded through the calls. *)

From Stdlib Require Import ZArith String Ascii List Bool Lia Permutation.
From Stdlib Require Import Strings.Byte.
From Stdlib Require Import DecimalString.
Import ListNotations.

Local Open Scope Z_scope.

(** ** Fixed-width integers *)

Definition uint8 (z : Z) : Z := z mod 2 ^ 8.
Definition uint16 (z : Z) : Z := z mod 2 ^ 16.
Definition uint32 (z : Z) : Z := z mod 2 ^ 32.

(** Conversion to a signed type of width [w]: reduce modulo [2^w], then read
    the top bit as the sign. *)
Definition to_signed (w : Z) (z : Z) : Z :=
  let u := z mod 2 ^ w in
  if u <? 2 ^ (w - 1) then u else u - 2 ^ w.

Definition int16 (z : Z) : Z := to_signed 16 z.
Definition int32 (z : Z) : Z := to_signed 32 z.

Definition is_uint16 (z : Z) : Prop := 0 <= z < 2 ^ 16.
Definition is_uint32 (z : Z) : Prop := 0 <= z < 2 ^ 32.
Definition is_int32 (z : Z) : Prop := - 2 ^ 31 <= z < 2 ^ 31.

(** ** Bytes and slices *)

(** [uintN(b)] for a byte [b]. *)
Definition byte_to_Z (b : byte) : Z := Z.of_N (Byte.to_N b).

(** [byte(v)]: the low eight bits of [v]. *)
Definition byte_of_Z (v : Z) : byte :=
  match Byte.of_N (Z.to_N (v mod 2 ^ 8)) with
  | Some b => b
  | None => x00
  end.

(** [make([]byte, n)] *)
Definition make_bytes (n : nat) : list byte := repeat x00 n.

(** The option monad carries panics. *)
Definition bind {A B : Type} (m : option A) (k : A -> option B) : option B :=
  match m with
  | Some a => k a
  | None => None
  end.

Notation "x <- m ;; k" := (bind m (fun x => k))
  (at level 61, m at next level, right associativity).

(** [b[i:]]: panics when [i] exceeds [len(b)]. *)
Definition slice_from (b : list byte) (i : nat) : option (list byte) :=
  if (i <=? length b)%nat then Some (skipn i b) else None.

(** A call [f(b[i:])] where [f] stores through the slice: the sub-slice
    shares its backing array with [b], so the bytes before [i] are kept and
    the rest is what [f] leaves behind. *)
Definition through_slice (b : list byte) (i : nat)
    (f : list byte -> option (list byte)) : option (list byte) :=
  s <- slice_from b i ;;
  s' <- f s ;;
  Some (firstn i b ++ s').

(** ** encoding/binary: the two byte orders *)

Module Binary.

Inductive ByteOrder : Type :=
  | LittleEndian
  | BigEndian.

(** [Uint16]: [uint16(b[0]) | uint16(b[1])<<8] in little-endian order,
    [uint16(b[1]) | uint16(b[0])<<8] in big-endian order; the bounds check
    [_ = b[1]] panics on a slice shorter than two bytes. *)
Definition Uint16 (o : ByteOrder) (b : list byte) : option Z :=
  match b with
  | b0 :: b1 :: _ =>
      Some match o with
           | LittleEndian =>
               Z.lor (byte_to_Z b0) (Z.shiftl (byte_to_Z b1) 8)
           | BigEndian =>
               Z.lor (byte_to_Z b1) (Z.shiftl (byte_to_Z b0) 8)
           end
  | _ => None
  end.

(** [Uint32], with its bounds check [_ = b[3]]. *)
Definition Uint32 (o : ByteOrder) (b : list byte) : option Z :=
  match b with
  | b0 :: b1 :: b2 :: b3 :: _ =>
      Some match o with
           | LittleEndian =>
               Z.lor (Z.lor (Z.lor (byte_to_Z b0)
                                   (Z.shiftl (byte_to_Z b1) 8))
                            (Z.shiftl (byte_to_Z b2) 16))
                     (Z.shiftl (byte_to_Z b3) 24)
           | BigEndian =>
               Z.lor (Z.lor (Z.lor (byte_to_Z b3)
                                   (Z.shiftl (byte_to_Z b2) 8))
                            (Z.shiftl (byte_to_Z b1) 16))
                     (Z.shiftl (byte_to_Z b0) 24)
           end
  | _ => None
  end.

(** [PutUint16(b, v)]: stores [byte(v)], [byte(v>>8)] (little-endian) or
    [byte(v>>8)], [byte(v)] (big-endian) in the first two bytes of [b]. *)
Definition PutUint16 (o : ByteOrder) (v : Z) (b : list byte)
    : option (list byte) :=
  match b with
  | _ :: _ :: rest =>
      Some match o with
           | LittleEndian =>
               byte_of_Z v :: byte_of_Z (Z.shiftr v 8) :: rest
           | BigEndian =>
               byte_of_Z (Z.shiftr v 8) :: byte_of_Z v :: rest
           end
  | _ => None
  end.

(** [PutUint32(b, v)] *)
Definition PutUint32 (o : ByteOrder) (v : Z) (b : list byte)
    : option (list byte) :=
  match b with
  | _ :: _ :: _ :: _ :: rest =>
      Some match o with
           | LittleEndian =>
               byte_of_Z v :: byte_of_Z (Z.shiftr v 8)
                 :: byte_of_Z (Z.shiftr v 16) :: byte_of_Z (Z.shiftr v 24)
                 :: rest
           | BigEndian =>
               byte_of_Z (Z.shiftr v 24) :: byte_of_Z (Z.shiftr v 16)
                 :: byte_of_Z (Z.shiftr v 8) :: byte_of_Z v
                 :: rest
           end
  | _ => None
  end.

End Binary.

Import Binary.

(** ** The byte order of the host

    [init] stores [uint16(0xABCD)] through an aliased pointer into a two-byte
    array and compares the array with the two layouts; [host] is the order in
    which the machine lays the store out. *)
Definition init (host : ByteOrder) : ByteOrder :=
  match PutUint16 host 43981 (make_bytes 2) with
  | Some [b0; b1] =>
      if (Byte.eqb b0 xcd && Byte.eqb b1 xab)%bool then LittleEndian
      else if (Byte.eqb b0 xab && Byte.eqb b1 xcd)%bool then BigEndian
      else LittleEndian
  | _ => LittleEndian
  end.

(** ** fmt and strings *)

(** [%v] on an integer: its decimal digits, with a leading [-] when it is
    negative. *)
Definition fmt_int (z : Z) : string := NilZero.string_of_int (Z.to_int z).

(** [strings.Join(s, sep)] *)
Definition strings_Join (s : list string) (sep : string) : string :=
  String.concat sep s.

(** [s = append(s, x)] *)
Definition append (s : list string) (x : string) : list string := s ++ [x].

(** ** Buttons *)

Definition Buttons : Type := Z.

Definition B_NONE : Buttons := 0.
Definition B_RIGHT : Buttons := 1.
Definition B_MIDDLE : Buttons := 2.
Definition B_LEFT : Buttons := 4.
Definition B_FOURTH : Buttons := 8.
Definition B_UP : Buttons := 16.
Definition B_DOWN : Buttons := 32.

Definition Buttons_String (b : Buttons) : string :=
  let s := [] in
  let s := if Z.land b B_NONE >? 0 then append s "none" else s in
  let s := if Z.land b B_RIGHT >? 0 then append s "right" else s in
  let s := if Z.land b B_MIDDLE >? 0 then append s "middle" else s in
  let s := if Z.land b B_LEFT >? 0 then append s "left" else s in
  let s := if Z.land b B_FOURTH >? 0 then append s "fourth" else s in
  let s := if Z.land b B_UP >? 0 then append s "up" else s in
  let s := if Z.land b B_DOWN >? 0 then append s "down" else s in
  strings_Join s ",".

(** ** EventType *)

Definition EventType : Type := Z.

(** [1 << iota] at position [i] of the constant block. *)
Definition iota_bit (i : Z) : Z := Z.shiftl 1 i.

Definition MOVE : EventType := iota_bit 0.
Definition DRAG : EventType := iota_bit 1.
Definition DOWN : EventType := iota_bit 2.
Definition UP : EventType := iota_bit 3.
Definition SINGLE : EventType := iota_bit 4.
Definition DOUBLE : EventType := iota_bit 5.
Definition TRIPLE : EventType := iota_bit 6.
Definition MFLAG : EventType := iota_bit 7.
Definition HARD : EventType := iota_bit 8.
Definition ENTER : EventType := iota_bit 9.
Definition LEAVE : EventType := iota_bit 10.

(** [EventType(^uint16(0))] *)
Definition ANY : EventType := uint16 (Z.lnot 0).

Definition EventType_String (e : EventType) : string :=
  let s := [] in
  let s := if Z.land e MOVE >? 0 then append s "move" else s in
  let s := if Z.land e DRAG >? 0 then append s "drag" else s in
  let s := if Z.land e DOWN >? 0 then append s "down" else s in
  let s := if Z.land e UP >? 0 then append s "up" else s in
  let s := if Z.land e SINGLE >? 0 then append s "single" else s in
  let s := if Z.land e DOUBLE >? 0 then append s "double" else s in
  let s := if Z.land e TRIPLE >? 0 then append s "triple" else s in
  let s := if Z.land e MFLAG >? 0 then append s "mflag" else s in
  let s := if Z.land e HARD >? 0 then append s "hard" else s in
  let s := if Z.land e ENTER >? 0 then append s "enter" else s in
  let s := if Z.land e LEAVE >? 0 then append s "leave" else s in
  strings_Join s ",".

(** ** Margin *)

Definition Margin : Type := Z.

Definition TOP : Z := iota_bit 0.
Definition BOT : Z := iota_bit 1.
Definition LFT : Z := iota_bit 2.
Definition RGT : Z := iota_bit 3.

Definition Margin_String (m : Margin) : string :=
  let s := [] in
  let s := if Z.land m TOP >? 0 then append s "top" else s in
  let s := if Z.land m BOT >? 0 then append s "bot" else s in
  let s := if Z.land m LFT >? 0 then append s "lft" else s in
  let s := if Z.land m RGT >? 0 then append s "rgt" else s in
  strings_Join s ",".

(** ** Event *)

Record Event : Type := mkEvent {
  Event_Buttons : Buttons;
  Event_Modifiers : Z;
  Event_VC : Z;
  Event_DX : Z;
  Event_DY : Z;
  Event_X : Z;
  Event_Y : Z;
  Event_Type : EventType;
  Event_Clicks : Z;
  Event_Margin : Margin;
  Event_WDX : Z;
  Event_WDY : Z
}.

(** [Event{}] *)
Definition Event_zero : Event := mkEvent 0 0 0 0 0 0 0 0 0 0 0 0.

(** The [Sprintf] of [Event.String]: [%v] and [%s] call the [String] method
    of the three flag types and print the integers in decimal. *)
Definition Event_String (event : Event) : string :=
  ("type:" ++ EventType_String (Event_Type event)
   ++ "[buttons:" ++ Buttons_String (Event_Buttons event)
   ++ ", modifiers:" ++ fmt_int (Event_Modifiers event)
   ++ ", vc:" ++ fmt_int (Event_VC event)
   ++ "] x:" ++ fmt_int (Event_X event)
   ++ "[dx:" ++ fmt_int (Event_DX event)
   ++ "] y:" ++ fmt_int (Event_Y event)
   ++ "[dy:" ++ fmt_int (Event_DY event)
   ++ "], clicks:" ++ fmt_int (Event_Clicks event)
   ++ " margin:" ++ Margin_String (Event_Margin event)
   ++ ", wdx:" ++ fmt_int (Event_WDX event)
   ++ ", wdy:" ++ fmt_int (Event_WDY event))%string.

(** ** Errors and net.Conn *)

(** A Go [error], identified by its message. *)
Inductive error : Type :=
  | mkError (msg : string).

(** [io.EOF] *)
Definition EOF : error := mkError "EOF".

(** What one call [c.Read(p)] leaves behind: the connection after the call,
    the contents of [p] after the call, and the two results [n] and [err]. *)
Record ReadResult (C : Type) : Type := mkReadResult {
  rr_conn : C;
  rr_buf : list byte;
  rr_n : Z;
  rr_err : option error
}.

Arguments mkReadResult {C} _ _ _ _.
Arguments rr_conn {C} _.
Arguments rr_buf {C} _.
Arguments rr_n {C} _.
Arguments rr_err {C} _.

(** What one call [c.Write(p)] leaves behind. *)
Record WriteResult (C : Type) : Type := mkWriteResult {
  wr_conn : C;
  wr_n : Z;
  wr_err : option error
}.

Arguments mkWriteResult {C} _ _ _.
Arguments wr_conn {C} _.
Arguments wr_n {C} _.
Arguments wr_err {C} _.

(** The part of interface [net.Conn] the package calls. *)
Class Conn (C : Type) : Type := {
  conn_Read : C -> list byte -> ReadResult C;
  conn_Write : C -> list byte -> WriteResult C;
  conn_Close : C -> C
}.

(** What [io.Reader] and package [net] promise of [Read] on a stream socket:
    - the callee cannot change the length of the caller's slice;
    - [0 <= n <= len(p)];
    - a read of zero bytes into a non-empty slice is reported as an error
      ([io.EOF] when the peer has closed). *)
Class StreamConn (C : Type) {K : Conn C} : Prop := {
  conn_Read_len :
    forall c p, length (rr_buf (conn_Read c p)) = length p;
  conn_Read_n :
    forall c p, 0 <= rr_n (conn_Read c p) <= Z.of_nat (length p);
  conn_Read_zero :
    forall c p, p <> [] -> rr_n (conn_Read c p) = 0 ->
                rr_err (conn_Read c p) <> None
}.

(** The outcome of a call that returns [(T, error)]. *)
Inductive result (A : Type) : Type :=
  | Ok (a : A)
  | Err (e : error).

Arguments Ok {A} _.
Arguments Err {A} _.

(** ** GPM *)

(** GPM connection *)
Record GPM (C : Type) : Type := mkGPM {
  gpm_c : C;
  gpm_tty : Z;
  gpm_pid : Z
}.

Arguments mkGPM {C} _ _ _.
Arguments gpm_c {C} _.
Arguments gpm_tty {C} _.
Arguments gpm_pid {C} _.

(** Struct sent via the socket after connecting *)
Record GPMConnect : Type := mkGPMConnect {
  EventMask : EventType;
  DefaultMask : EventType;
  MinMod : Z;
  MaxMod : Z
}.

Definition DefaultConf : GPMConnect := {|
  EventMask := uint16 (Z.lnot 0);
  DefaultMask := uint16 (Z.lnot 0);
  MinMod := 0;
  MaxMod := uint16 (Z.lnot 0)
|}.

(** The fields of a [GPMConnect] are of 16-bit unsigned types. *)
Definition GPMConnect_wf (conf : GPMConnect) : Prop :=
  is_uint16 (EventMask conf) /\ is_uint16 (DefaultMask conf) /\
  is_uint16 (MinMod conf) /\ is_uint16 (MaxMod conf).

Section Package.

(** [var nativeEndian binary.ByteOrder], as [init] has set it. *)
Variable nativeEndian : ByteOrder.

(** The sixteen bytes [NewGPM] builds in [gpmConnect] before it writes
    them, for the process id [pid] and the terminal [tty]. *)
Definition NewGPM_gpmConnect (conf : GPMConnect) (pid tty : Z)
    : option (list byte) :=
  let gpmConnect := make_bytes 16 in
  gpmConnect <- through_slice gpmConnect 0
                  (PutUint16 nativeEndian (uint16 (EventMask conf))) ;;
  gpmConnect <- through_slice gpmConnect 2
                  (PutUint16 nativeEndian (uint16 (DefaultMask conf))) ;;
  gpmConnect <- through_slice gpmConnect 4
                  (PutUint16 nativeEndian (MinMod conf)) ;;
  gpmConnect <- through_slice gpmConnect 6
                  (PutUint16 nativeEndian (MaxMod conf)) ;;
  gpmConnect <- through_slice gpmConnect 8
                  (PutUint32 nativeEndian (uint32 pid)) ;;
  gpmConnect <- through_slice gpmConnect 12
                  (PutUint32 nativeEndian (uint32 tty)) ;;
  Some gpmConnect.

(** [NewGPM]: [getTTY], [net.Dial] and [os.Getpid] are the environment's;
    their outcomes are the first three arguments. *)
Definition NewGPM {C : Type} `{Conn C}
    (getTTY : result Z) (Dial : result C) (Getpid : Z)
    (conf : GPMConnect) : option (result (GPM C)) :=
  match getTTY with
  | Err err => Some (Err err)
  | Ok tty =>
      match Dial with
      | Err err => Some (Err err)
      | Ok c =>
          let pid := Getpid in
          gpmConnect <- NewGPM_gpmConnect conf pid tty ;;
          let w := conn_Write c gpmConnect in
          match wr_err w with
          | Some err =>
              let _ := conn_Close (wr_conn w) in
              Some (Err err)
          | None => Some (Ok (mkGPM (wr_conn w) tty pid))
          end
      end
  end.

(** [u16 b i] is [nativeEndian.Uint16(b[i:])], [u32 b i] is
    [nativeEndian.Uint32(b[i:])]. *)
Definition u16 (b : list byte) (i : nat) : option Z :=
  s <- slice_from b i ;; Uint16 nativeEndian s.

Definition u32 (b : list byte) (i : nat) : option Z :=
  s <- slice_from b i ;; Uint32 nativeEndian s.

(** The composite literal of [Read]: the twelve fields of the event, read
    from the buffer [b] in the order the source writes them. *)
Definition Read_event (b : list byte) : option Event :=
  buttons <- u16 b 0 ;;
  modifiers <- u16 b 1 ;;
  vc <- u16 b 2 ;;
  dx <- u16 b 4 ;;
  dy <- u16 b 6 ;;
  x <- u16 b 8 ;;
  y <- u16 b 10 ;;
  type <- u32 b 12 ;;
  clicks <- u32 b 16 ;;
  margin <- u32 b 20 ;;
  wdx <- u16 b 24 ;;
  wdy <- u16 b 26 ;;
  Some {|
    Event_Buttons := uint8 buttons;
    Event_Modifiers := uint8 modifiers;
    Event_VC := vc;
    Event_DX := int16 dx;
    Event_DY := int16 dy;
    Event_X := int16 x;
    Event_Y := int16 y;
    Event_Type := uint16 type;
    Event_Clicks := int32 clicks;
    Event_Margin := margin;
    Event_WDX := int16 wdx;
    Event_WDY := int16 wdy
  |}.

(** [GPM.Read]: the connection after the call, and what the call returns
    ([None] for a panic). *)
Definition Read {C : Type} `{Conn C} (g : GPM C)
    : GPM C * option (Event * option error) :=
  let b := make_bytes 28 in
  let r := conn_Read (gpm_c g) b in
  let g' := mkGPM (rr_conn r) (gpm_tty g) (gpm_pid g) in
  match rr_err r with
  | Some err => (g', Some (Event_zero, Some err))
  | None =>
      (g', e <- Read_event (rr_buf r) ;; Some (e, None))
  end.

(** [GPM.Close] *)
Definition Close {C : Type} `{Conn C} (g : GPM C) : GPM C :=
  mkGPM (conn_Close (gpm_c g)) (gpm_tty g) (gpm_pid g).

End Package.

(** ** A scripted stream socket

    An instance of [Conn] for running the package: the socket delivers the
    [pending] arrivals one after the other and logs what is written to it. *)

Inductive Arrival : Type :=
  | Bytes (d : list byte)
  | Failure (e : error).

Record Socket : Type := mkSocket {
  pending : list Arrival;
  sent : list (list byte);
  closed : bool
}.

Definition ErrClosed : error := mkError "use of closed network connection".

Definition Socket_Read (c : Socket) (p : list byte) : ReadResult Socket :=
  if closed c then mkReadResult c p 0 (Some ErrClosed) else
  match pending c with
  | [] => mkReadResult c p 0 (Some EOF)
  | Failure e :: rest =>
      mkReadResult (mkSocket rest (sent c) false) p 0 (Some e)
  | Bytes d :: rest =>
      match p, d with
      | [], _ => mkReadResult c p 0 None
      | _ :: _, [] =>
          mkReadResult (mkSocket rest (sent c) false) p 0 (Some EOF)
      | _ :: _, _ :: _ =>
          let n := Nat.min (length d) (length p) in
          let rest' :=
            if (length d <=? length p)%nat then rest
            else Bytes (skipn n d) :: rest in
          mkReadResult (mkSocket rest' (sent c) false)
                       (firstn n d ++ skipn n p) (Z.of_nat n) None
      end
  end.

Definition Socket_Write (c : Socket) (p : list byte) : WriteResult Socket :=
  if closed c then mkWriteResult c 0 (Some ErrClosed)
  else mkWriteResult (mkSocket (pending c) (sent c ++ [p]) false)
                     (Z.of_nat (length p)) None.

Definition Socket_Close (c : Socket) : Socket :=
  mkSocket (pending c) (sent c) true.

#[export] Instance Socket_Conn : Conn Socket := {|
  conn_Read := Socket_Read;
  conn_Write := Socket_Write;
  conn_Close := Socket_Close
|}.

(** ** getTTY

    A Go [string] is the [string] of its bytes. [unicode.IsDigit] is taken
    on ASCII runes, where it is the test ['0' <= r <= '9']; a string that
    holds no decimal digit outside ASCII is trimmed alike rune by rune and
    byte by byte. *)

Definition isSlash (c : ascii) : bool := Ascii.eqb c "/".

Definition IsDigit (c : ascii) : bool :=
  ((48 <=? nat_of_ascii c) && (nat_of_ascii c <=? 57))%nat.

(** The longest suffix of [s] that starts with a character failing [f]. *)
Fixpoint drop_while (f : ascii -> bool) (s : list ascii) : list ascii :=
  match s with
  | [] => []
  | c :: s' => if f c then drop_while f s' else s
  end.

(** The longest prefix of [s] whose characters pass [f]. *)
Fixpoint take_while (f : ascii -> bool) (s : list ascii) : list ascii :=
  match s with
  | [] => []
  | c :: s' => if f c then c :: take_while f s' else []
  end.

(** [path.Base]: "." for the empty path; trailing slashes are stripped,
    then what follows the last slash is kept; "/" if nothing is left. *)
Definition path_Base (path : list ascii) : list ascii :=
  match path with
  | [] => ["."%char]
  | _ =>
      let path := rev (drop_while isSlash (rev path)) in
      let path := rev (take_while (fun c => negb (isSlash c)) (rev path)) in
      match path with
      | [] => ["/"%char]
      | _ => path
      end
  end.

(** [strings.TrimFunc(s, f)]: [s] without its leading and its trailing
    characters that satisfy [f]. *)
Definition strings_TrimFunc (s : list ascii) (f : ascii -> bool)
    : list ascii :=
  rev (drop_while f (rev (drop_while f s))).

(** [strconv.ErrSyntax] and [strconv.ErrRange], the [Err] field of the
    [*NumError] that [ParseInt] returns. *)
Definition ErrSyntax : error := mkError "invalid syntax".
Definition ErrRange : error := mkError "value out of range".

(** The loop of [strconv.ParseUint(s, 10, 64)] from the accumulator [n]: a
    character that is no digit is a syntax error; [n >= cutoff], where
    [cutoff = maxUint64/10 + 1], or a sum that wraps around, is a range
    error. *)
Fixpoint ParseUint_loop (s : list ascii) (n : Z) : result Z :=
  match s with
  | [] => Ok n
  | c :: s' =>
      if IsDigit c then
        let d := Z.of_nat (nat_of_ascii c) - 48 in
        if n >=? (2 ^ 64 - 1) / 10 + 1 then Err ErrRange
        else
          let n := n * 10 in
          let n1 := (n + d) mod 2 ^ 64 in
          if (n1 <? n) || (n1 >? 2 ^ 64 - 1) then Err ErrRange
          else ParseUint_loop s' n1
      else Err ErrSyntax
  end.

Definition strconv_ParseUint (s : list ascii) : result Z :=
  match s with
  | [] => Err ErrSyntax
  | _ => ParseUint_loop s 0
  end.

(** [strconv.ParseInt(s, 10, 64)]: an optional sign, then [ParseUint]; a
    magnitude that does not fit [int64] is a range error. *)
Definition strconv_ParseInt (s : list ascii) : result Z :=
  match s with
  | [] => Err ErrSyntax
  | c :: s' =>
      let neg := Ascii.eqb c "-" in
      let s1 := if (Ascii.eqb c "+" || Ascii.eqb c "-")%bool then s' else s in
      match strconv_ParseUint s1 with
      | Err e => Err e
      | Ok un =>
          let cutoff := 2 ^ 63 in
          if (negb neg && (un >=? cutoff))%bool then Err ErrRange
          else if (neg && (un >? cutoff))%bool then Err ErrRange
          else Ok (if neg then - un else un)
      end
  end.

(** [getTTY], from the outcome of [os.Readlink("/proc/self/fd/0")]. *)
Definition getTTY (Readlink : result string) : result Z :=
  match Readlink with
  | Err err => Err err
  | Ok dest =>
      let stty :=
        strings_TrimFunc (path_Base (list_ascii_of_string dest))
                         (fun r => negb (IsDigit r)) in
      match strconv_ParseInt stty with
      | Err err => Err err
      | Ok tty => Ok tty
      end
  end.

(** ** The example program

    [main] of [example/example.go]: [NewGPM(DefaultConf)], then the loop
    that reads an event and logs its rendering, until [Read] fails and the
    program panics. [log] is the list of the messages logged so far, [fuel]
    bounds the number of iterations that are run. *)

Inductive Exit : Type :=
  | Panic (err : error)
  | Fault
  | Running.

Fixpoint main_loop {C : Type} `{Conn C} (nativeEndian : ByteOrder)
    (fuel : nat) (g : GPM C) (log : list string) : list string * Exit :=
  match fuel with
  | O => (log, Running)
  | S fuel' =>
      match Read nativeEndian g with
      | (_, None) => (log, Fault)
      | (_, Some (_, Some err)) => (log, Panic err)
      | (g', Some (event, None)) =>
          main_loop nativeEndian fuel' g' (log ++ [Event_String event])
      end
  end.


(** ** Flag tables

    The flags of each type with their labels, in the order in which the
    [String] methods test them, and the rendering read off a table. *)

Definition Buttons_flags : list (Z * string) :=
  [(B_NONE, "none"); (B_RIGHT, "right"); (B_MIDDLE, "middle");
   (B_LEFT, "left"); (B_FOURTH, "fourth"); (B_UP, "up");
   (B_DOWN, "down")]%string.

Definition EventType_flags : list (Z * string) :=
  [(MOVE, "move"); (DRAG, "drag"); (DOWN, "down"); (UP, "up");
   (SINGLE, "single"); (DOUBLE, "double"); (TRIPLE, "triple");
   (MFLAG, "mflag"); (HARD, "hard"); (ENTER, "enter");
   (LEAVE, "leave")]%string.

Definition Margin_flags : list (Z * string) :=
  [(TOP, "top"); (BOT, "bot"); (LFT, "lft"); (RGT, "rgt")]%string.

Definition flag_set (v : Z) (fl : Z * string) : bool :=
  Z.land v (fst fl) >? 0.

Definition render_flags (table : list (Z * string)) (v : Z) : string :=
  strings_Join (map snd (filter (flag_set v) table)) ",".

(** The integers [0 .. n-1]. *)
Definition below (n : nat) : list Z := map Z.of_nat (seq 0 n).

(** ** The layout of Gpm_Event

    The number that the bytes at offset [i] spell in byte order [o]. *)

Definition byte_at (b : list byte) (i : nat) : Z := byte_to_Z (nth i b x00).

Definition word16 (o : ByteOrder) (b : list byte) (i : nat) : Z :=
  match o with
  | LittleEndian => byte_at b i + 2 ^ 8 * byte_at b (i + 1)
  | BigEndian => 2 ^ 8 * byte_at b i + byte_at b (i + 1)
  end.

Definition word32 (o : ByteOrder) (b : list byte) (i : nat) : Z :=
  match o with
  | LittleEndian =>
      byte_at b i + 2 ^ 8 * byte_at b (i + 1)
      + 2 ^ 16 * byte_at b (i + 2) + 2 ^ 24 * byte_at b (i + 3)
  | BigEndian =>
      2 ^ 24 * byte_at b i + 2 ^ 16 * byte_at b (i + 1)
      + 2 ^ 8 * byte_at b (i + 2) + byte_at b (i + 3)
  end.

(** Every field of an event lies in the range of its Go type. *)
Definition Event_wf (e : Event) : Prop :=
  0 <= Event_Buttons e < 2 ^ 8 /\
  0 <= Event_Modifiers e < 2 ^ 8 /\
  is_uint16 (Event_VC e) /\
  - 2 ^ 15 <= Event_DX e < 2 ^ 15 /\
  - 2 ^ 15 <= Event_DY e < 2 ^ 15 /\
  - 2 ^ 15 <= Event_X e < 2 ^ 15 /\
  - 2 ^ 15 <= Event_Y e < 2 ^ 15 /\
  is_uint16 (Event_Type e) /\
  is_int32 (Event_Clicks e) /\
  is_uint32 (Event_Margin e) /\
  - 2 ^ 15 <= Event_WDX e < 2 ^ 15 /\
  - 2 ^ 15 <= Event_WDY e < 2 ^ 15.

(** ** Statements *)

(** Reading the record of [NewGPM] back field by field, each field at its
    offset in [Gpm_Connect] and in the byte order it was written in: the
    four 16-bit fields, then [pid] and [vc], which C declares [int]. *)
Definition gpmConnect_reads_back (nativeEndian : ByteOrder)
    (conf : GPMConnect) (pid tty : Z) : Prop :=
  exists gpmConnect,
    NewGPM_gpmConnect nativeEndian conf pid tty = Some gpmConnect /\
    length gpmConnect = 16%nat /\
    u16 nativeEndian gpmConnect 0 = Some (EventMask conf) /\
    u16 nativeEndian gpmConnect 2 = Some (DefaultMask conf) /\
    u16 nativeEndian gpmConnect 4 = Some (MinMod conf) /\
    u16 nativeEndian gpmConnect 6 = Some (MaxMod conf) /\
    u32 nativeEndian gpmConnect 8 = Some (uint32 pid) /\
    int32 (uint32 pid) = pid /\
    (0 <= pid -> uint32 pid = pid) /\
    u32 nativeEndian gpmConnect 12 = Some (uint32 tty) /\
    int32 (uint32 tty) = tty /\
    (0 <= tty -> uint32 tty = tty).

(** The event record of a mouse move at column 190, row 28, one row down,
    in little-endian order, as [gpm] sends it. *)
Definition move_record : list byte :=
  [x00; x00; x00; x00;  x00; x00; x01; x00;  xbe; x00; x1c; x00;
   x01; x00; x00; x00;  x00; x00; x00; x00;  x00; x00; x00; x00;
   x00; x00; x00; x00].

Definition move_event : Event := {|
  Event_Buttons := 0; Event_Modifiers := 0; Event_VC := 0;
  Event_DX := 0; Event_DY := 1; Event_X := 190; Event_Y := 28;
  Event_Type := MOVE; Event_Clicks := 0; Event_Margin := 0;
  Event_WDX := 0; Event_WDY := 0
|}.

(** "Any short read is a failure": on every stream connection, a transport
    read of fewer than 28 bytes makes [Read] return an error. *)
Definition short_reads_fail : Prop :=
  forall (nativeEndian : ByteOrder) (C : Type) (K : Conn C)
         (L : StreamConn C) (g : GPM C),
    rr_n (conn_Read (gpm_c g) (make_bytes 28)) < 28 ->
    exists e err, snd (Read nativeEndian g) = Some (e, Some err).

(** What [Read] does with the outcome of the one transport read it makes
    into a fresh, zeroed buffer of 28 bytes. *)
Definition Read_follows_transport (nativeEndian : ByteOrder)
    {C : Type} {K : Conn C} (g : GPM C) : Prop :=
  let r := conn_Read (gpm_c g) (make_bytes 28) in
  let g' := mkGPM (rr_conn r) (gpm_tty g) (gpm_pid g) in
  (forall err, rr_err r = Some err ->
               Read nativeEndian g = (g', Some (Event_zero, Some err))) /\
  (rr_n r = 0 ->
   exists err, Read nativeEndian g = (g', Some (Event_zero, Some err))) /\
  (rr_err r = None ->
   exists e, Read_event nativeEndian (rr_buf r) = Some e /\
             Read nativeEndian g = (g', Some (e, None))).

(** ** Further statements *)

(** One test of a [String] method: [if v&flag > 0 { s = append(s, label) }]. *)
Definition flag_step (v : Z) (s : list string) (fl : Z * string)
    : list string :=
  if flag_set v fl then append s (snd fl) else s.

(** The labels between the commas of [s]; [cur] holds the label being read,
    last character first. *)
Fixpoint split_commas (s : list ascii) (cur : list ascii) : list string :=
  match s with
  | [] => [string_of_list_ascii (rev cur)]
  | c :: s' =>
      if Ascii.eqb c "," then
        string_of_list_ascii (rev cur) :: split_commas s' []
      else split_commas s' (c :: cur)
  end.

Definition label_bit (table : list (Z * string)) (label : string) : Z :=
  match find (fun fl => String.eqb (snd fl) label) table with
  | Some fl => fst fl
  | None => 0
  end.

(** Reading a rendering back: the bits of the labels it lists. *)
Definition parse_flags (table : list (Z * string)) (s : string) : Z :=
  fold_left (fun v label => Z.lor v (label_bit table label))
            (split_commas (list_ascii_of_string s) []) 0.

(** The number that a string of decimal digits spells, after [n]. *)
Definition digit_value (c : ascii) : Z := Z.of_nat (nat_of_ascii c) - 48.

Definition digits_value (ds : list ascii) (n : Z) : Z :=
  fold_left (fun n c => n * 10 + digit_value c) ds n.

Definition notDigit (r : ascii) : bool := negb (IsDigit r).

(** An ASCII character that is neither a slash nor a digit. *)
Definition plain (c : ascii) : bool :=
  ((nat_of_ascii c <? 128)%nat && negb (isSlash c) && negb (IsDigit c))%bool.

(** What [Read] takes from a record of 28 bytes, as numbers: the multi-byte
    fields are the words at the offsets of [Gpm_Event] in the byte order of
    the host; [Buttons] and [Modifiers] are the low bytes of the 16-bit words
    at offsets 0 and 1, and [Type] the low half of the 32-bit word at
    offset 12, which lie where the byte order puts them. *)
Definition Read_layout (o : ByteOrder) (b : list byte) : Event := {|
  Event_Buttons :=
    byte_at b (match o with LittleEndian => 0 | BigEndian => 1 end);
  Event_Modifiers :=
    byte_at b (match o with LittleEndian => 1 | BigEndian => 2 end);
  Event_VC := word16 o b 2;
  Event_DX := int16 (word16 o b 4);
  Event_DY := int16 (word16 o b 6);
  Event_X := int16 (word16 o b 8);
  Event_Y := int16 (word16 o b 10);
  Event_Type :=
    word16 o b (match o with LittleEndian => 12 | BigEndian => 14 end);
  Event_Clicks := int32 (word32 o b 16);
  Event_Margin := word32 o b 20;
  Event_WDX := int16 (word16 o b 24);
  Event_WDY := int16 (word16 o b 26)
|}.

(** The line the example program logs for a record. *)
Definition render_record (o : ByteOrder) (r : list byte) : string :=
  Event_String (Read_layout o r).

(** One arrival on the socket that holds one or more whole records. *)
Definition whole_records (group : list (list byte)) : Prop :=
  group <> [] /\ Forall (fun r => length r = 28%nat) group.

(** * Properties *)

(** A slice of 28 bytes, byte by byte. *)
Ltac bytes28 b H :=
  do 28 (destruct b as [|? b]; [discriminate H|]);
  destruct b; [clear H|discriminate H].

(** ** The scripted socket is a stream connection *)

Lemma Socket_Read_len (c : Socket) (p : list byte) :
  length (rr_buf (Socket_Read c p)) = length p.
Proof.
  unfold Socket_Read.
  destruct (closed c); [reflexivity|].
  destruct (pending c) as [|[d|e] rest]; try reflexivity.
  destruct p as [|p0 p]; [reflexivity|].
  destruct d as [|d0 d]; [reflexivity|].
  cbv zeta. unfold rr_buf.
  rewrite length_app, length_firstn, length_skipn. lia.
Qed.

Lemma Socket_Read_n (c : Socket) (p : list byte) :
  0 <= rr_n (Socket_Read c p) <= Z.of_nat (length p).
Proof.
  unfold Socket_Read.
  destruct (closed c); [simpl; lia|].
  destruct (pending c) as [|[d|e] rest]; try (simpl; lia).
  destruct p as [|p0 p]; [simpl; lia|].
  destruct d as [|d0 d]; [simpl; lia|].
  cbv zeta. unfold rr_n. lia.
Qed.

Lemma Socket_Read_zero (c : Socket) (p : list byte) :
  p <> [] -> rr_n (Socket_Read c p) = 0 ->
  rr_err (Socket_Read c p) <> None.
Proof.
  unfold Socket_Read. intros Hp.
  destruct (closed c); [discriminate|].
  destruct (pending c) as [|[d|e] rest]; try discriminate.
  destruct p as [|p0 p]; [contradiction|].
  destruct d as [|d0 d]; [discriminate|].
  cbv zeta. unfold rr_n, rr_err. simpl length. lia.
Qed.

Lemma Socket_StreamConn : StreamConn Socket.
Proof.
  constructor.
  - exact Socket_Read_len.
  - exact Socket_Read_n.
  - exact Socket_Read_zero.
Qed.

(** ** Bytes and wrap-around *)

Lemma byte_to_Z_range (b : byte) : 0 <= byte_to_Z b < 2 ^ 8.
Proof.
  unfold byte_to_Z. pose proof (Byte.to_N_bounded b) as Hb.
  change (2 ^ 8) with 256. lia.
Qed.

Lemma byte_to_Z_of_Z (v : Z) : byte_to_Z (byte_of_Z v) = v mod 2 ^ 8.
Proof.
  unfold byte_to_Z, byte_of_Z.
  assert (Hr : 0 <= v mod 2 ^ 8 < 256) by (apply Z.mod_pos_bound; lia).
  destruct (Byte.of_N (Z.to_N (v mod 2 ^ 8))) as [b|] eqn:E.
  - apply Byte.to_of_N in E. rewrite E. apply Z2N.id. lia.
  - apply Byte.of_N_None_iff in E. lia.
Qed.

(** The bits of the byte that [PutUintN] stores at distance [k]. *)
Lemma testbit_stored_byte (v k n : Z) :
  0 <= k -> 0 <= n ->
  Z.testbit (Z.shiftl (Z.shiftr v k mod 2 ^ 8) k) n
  = ((k <=? n) && (n <? k + 8) && Z.testbit v n)%bool.
Proof.
  intros Hk Hn.
  destruct (Z.leb_spec k n) as [Hle|Hlt]; cbn [andb].
  - rewrite Z.shiftl_spec by lia.
    rewrite Z.testbit_mod_pow2 by lia.
    rewrite Z.shiftr_spec by lia.
    replace (n - k + k) with n by lia.
    destruct (Z.ltb_spec (n - k) 8), (Z.ltb_spec n (k + 8));
      try lia; reflexivity.
  - apply Z.shiftl_spec_low. lia.
Qed.

Lemma bytes16_join (v : Z) :
  Z.lor (v mod 2 ^ 8) (Z.shiftl (Z.shiftr v 8 mod 2 ^ 8) 8) = v mod 2 ^ 16.
Proof.
  apply Z.bits_inj'. intros n Hn.
  rewrite Z.lor_spec, testbit_stored_byte, !Z.testbit_mod_pow2 by lia.
  destruct (Z.testbit v n); rewrite ?andb_false_r, ?andb_true_r;
    [|reflexivity].
  destruct (Z.ltb_spec n 8), (Z.leb_spec 8 n), (Z.ltb_spec n (8 + 8)),
    (Z.ltb_spec n 16); try lia; reflexivity.
Qed.

Lemma bytes32_join (v : Z) :
  Z.lor (Z.lor (Z.lor (v mod 2 ^ 8)
                      (Z.shiftl (Z.shiftr v 8 mod 2 ^ 8) 8))
               (Z.shiftl (Z.shiftr v 16 mod 2 ^ 8) 16))
        (Z.shiftl (Z.shiftr v 24 mod 2 ^ 8) 24)
  = v mod 2 ^ 32.
Proof.
  apply Z.bits_inj'. intros n Hn.
  rewrite !Z.lor_spec, !testbit_stored_byte, !Z.testbit_mod_pow2 by lia.
  destruct (Z.testbit v n); rewrite ?andb_false_r, ?andb_true_r;
    [|reflexivity].
  destruct (Z.ltb_spec n 8), (Z.leb_spec 8 n), (Z.ltb_spec n (8 + 8)),
    (Z.leb_spec 16 n), (Z.ltb_spec n (16 + 8)),
    (Z.leb_spec 24 n), (Z.ltb_spec n (24 + 8)),
    (Z.ltb_spec n 32); try lia; reflexivity.
Qed.

Lemma int32_uint32 (z : Z) : is_int32 z -> int32 (uint32 z) = z.
Proof.
  unfold is_int32, int32, uint32, to_signed. intros Hz.
  rewrite Z.mod_mod by lia.
  change (32 - 1) with 31.
  destruct (Z.ltb_spec (z mod 2 ^ 32) (2 ^ 31)) as [H|H];
    revert H; Z.div_mod_to_equations; lia.
Qed.

Lemma uint32_small (z : Z) : is_uint32 z -> uint32 z = z.
Proof. unfold is_uint32, uint32. intros Hz. apply Z.mod_small. lia. Qed.

Lemma uint16_small (z : Z) : is_uint16 z -> uint16 z = z.
Proof. unfold is_uint16, uint16. intros Hz. apply Z.mod_small. lia. Qed.

(** ** encoding/binary: what is put is what is read *)

Lemma Uint16_PutUint16 (o : ByteOrder) (v : Z) (b b' : list byte) :
  PutUint16 o v b = Some b' -> Uint16 o b' = Some (uint16 v).
Proof.
  destruct b as [|x0 [|x1 rest]]; try discriminate.
  destruct o; intros [= <-]; cbn [Uint16];
    rewrite !byte_to_Z_of_Z, bytes16_join; reflexivity.
Qed.

Lemma Uint32_PutUint32 (o : ByteOrder) (v : Z) (b b' : list byte) :
  PutUint32 o v b = Some b' -> Uint32 o b' = Some (uint32 v).
Proof.
  destruct b as [|x0 [|x1 [|x2 [|x3 rest]]]]; try discriminate.
  destruct o; intros [= <-]; cbn [Uint32];
    rewrite !byte_to_Z_of_Z, bytes32_join; reflexivity.
Qed.

Lemma init_host (host : ByteOrder) : init host = host.
Proof. destruct host; reflexivity. Qed.

(** ** The handshake record *)

(** C4. For all 16-bit [EventMask], [DefaultMask], [MinMod], [MaxMod] and
    all 32-bit process and terminal ids, in either byte order, [NewGPM]
    builds a 16-byte record from which the fields are read back unchanged:
    the masks at offsets 0 and 2, the modifiers at 4 and 6, the process id
    at 8 and the terminal at 12 (as the 32-bit word stored, which is the id
    itself when it is not negative and converts back to it as an [int32]
    always). *)
Theorem NewGPM_gpmConnect_roundtrip
    (nativeEndian : ByteOrder) (conf : GPMConnect) (pid tty : Z) :
  GPMConnect_wf conf -> is_int32 pid -> is_int32 tty ->
  gpmConnect_reads_back nativeEndian conf pid tty.
Proof.
  intros (He & Hd & Hm & Hx) Hp Ht.
  assert (Hu : forall z, is_int32 z -> 0 <= z -> uint32 z = z).
  { intros z Hz Hz0. apply uint32_small.
    unfold is_int32, is_uint32 in *. lia. }
  unfold gpmConnect_reads_back.
  destruct nativeEndian;
    (eexists; split;
      [cbv [NewGPM_gpmConnect through_slice slice_from bind make_bytes repeat
            PutUint16 PutUint32 firstn skipn app length Nat.leb];
       reflexivity|]);
    unfold u16, u32, slice_from;
    cbn [length skipn Nat.leb bind Uint16 Uint32];
    rewrite !byte_to_Z_of_Z, !bytes32_join, !bytes16_join;
    fold (uint16 (uint16 (EventMask conf)));
    fold (uint16 (uint16 (DefaultMask conf)));
    fold (uint16 (MinMod conf)); fold (uint16 (MaxMod conf));
    fold (uint32 (uint32 pid)); fold (uint32 (uint32 tty));
    rewrite !(uint16_small (EventMask conf)),
      !(uint16_small (DefaultMask conf)),
      (uint16_small (MinMod conf)), (uint16_small (MaxMod conf))
      by assumption;
    rewrite !(uint32_small (uint32 pid)), !(uint32_small (uint32 tty))
      by (apply Z.mod_pos_bound; lia);
    rewrite !int32_uint32 by assumption;
    repeat split; auto.
Qed.

Lemma NewGPM_gpmConnect_roundtrip_witness :
  gpmConnect_reads_back BigEndian (mkGPMConnect 0x0105 0xFEFF 3 0x8000)
                        70000 63.
Proof.
  apply (NewGPM_gpmConnect_roundtrip
           BigEndian (mkGPMConnect 0x0105 0xFEFF 3 0x8000) 70000 63).
  - unfold GPMConnect_wf, is_uint16. simpl. lia.
  - unfold is_int32. lia.
  - unfold is_int32. lia.
Defined.

(** C7. With [DefaultConf] (event mask 0xFFFF, default mask 0xFFFF,
    modifiers 0 to 0xFFFF), process id 1234 and terminal 4, the record
    [NewGPM] builds in little-endian order, and writes to the socket, is
    FF FF FF FF 00 00 FF FF D2 04 00 00 04 00 00 00. *)
Theorem NewGPM_gpmConnect_DefaultConf :
  DefaultConf = mkGPMConnect 0xFFFF 0xFFFF 0 0xFFFF /\
  NewGPM_gpmConnect LittleEndian DefaultConf 1234 4
  = Some [xff; xff; xff; xff; x00; x00; xff; xff;
          xd2; x04; x00; x00; x04; x00; x00; x00] /\
  NewGPM LittleEndian (Ok 4) (Ok (mkSocket [] [] false)) 1234 DefaultConf
  = Some (Ok (mkGPM (mkSocket []
                       [[xff; xff; xff; xff; x00; x00; xff; xff;
                         xd2; x04; x00; x00; x04; x00; x00; x00]]
                       false)
                    4 1234)).
Proof. repeat split; vm_compute; reflexivity. Qed.

(** ** Flag rendering *)

Lemma B_NONE_never_set (b : Buttons) : (Z.land b B_NONE >? 0) = false.
Proof. unfold B_NONE. rewrite Z.land_0_r. reflexivity. Qed.

(** C2. [Buttons(0).String()] is the empty string and not "none": the test
    [b&B_NONE > 0] masks with zero and holds for no value of [b], so the
    label "none" is never appended. [Buttons(5).String()] is "right,left". *)
Theorem Buttons_String_zero_and_five :
  Buttons_String 0 = ""%string /\
  Buttons_String 0 <> "none"%string /\
  Buttons_String 5 = "right,left"%string /\
  (forall b : Buttons, (Z.land b B_NONE >? 0) = false).
Proof.
  split; [reflexivity|].
  split; [discriminate|].
  split; [reflexivity|].
  exact B_NONE_never_set.
Qed.

(** A flag that lies inside a mask is tested alike before and after the
    mask is applied. *)
Lemma land_mask_flag (b mask flag : Z) :
  Z.land mask flag = flag -> Z.land (Z.land b mask) flag = Z.land b flag.
Proof. intros H. rewrite <- Z.land_assoc, H. reflexivity. Qed.

(** C10. Rendering a [Buttons] value [b] gives the same string as rendering
    [b & 63]: the bits 64 and 128 contribute no label. *)
Theorem Buttons_String_low_six_bits (b : Buttons) :
  Buttons_String b = Buttons_String (Z.land b 63).
Proof.
  unfold Buttons_String.
  rewrite !(land_mask_flag b 63) by reflexivity.
  reflexivity.
Qed.

(** Setting bits with [|] in any order gives the same value. *)
Lemma fold_lor_Permutation (l l' : list Z) :
  Permutation l l' ->
  forall a, fold_left Z.lor l a = fold_left Z.lor l' a.
Proof.
  induction 1 as [|x l l' _ IH|x y l|l l' l'' _ IH1 _ IH2]; intros a.
  - reflexivity.
  - cbn [fold_left]. apply IH.
  - cbn [fold_left]. f_equal.
    rewrite <- !Z.lor_assoc. f_equal. apply Z.lor_comm.
  - rewrite IH1. apply IH2.
Qed.

(** C8. Whatever the order in which the bits [MOVE], [DOWN] and [SINGLE]
    are set, the value renders as "move,down,single", the order of the
    declarations, and it does so at every one of any number of repeated
    renderings. *)
Theorem EventType_String_order_stable (flags : list EventType) (n : nat) :
  Permutation flags [MOVE; DOWN; SINGLE] ->
  let e := fold_left Z.lor flags 0 in
  e = Z.lor MOVE (Z.lor DOWN SINGLE) /\
  EventType_String e = "move,down,single"%string /\
  map EventType_String (repeat e n) = repeat "move,down,single"%string n.
Proof.
  intros Hp e.
  assert (He : e = 21).
  { unfold e. rewrite (fold_lor_Permutation _ _ Hp). reflexivity. }
  rewrite He. split; [reflexivity|]. split; [reflexivity|].
  induction n as [|n IH]; [reflexivity|].
  cbn [repeat map]. rewrite IH. reflexivity.
Qed.

Lemma EventType_String_order_stable_witness :
  let e := fold_left Z.lor [SINGLE; MOVE; DOWN] 0 in
  e = Z.lor MOVE (Z.lor DOWN SINGLE) /\
  EventType_String e = "move,down,single"%string /\
  map EventType_String (repeat e 3) = repeat "move,down,single"%string 3.
Proof.
  apply (EventType_String_order_stable [SINGLE; MOVE; DOWN] 3).
  apply (Permutation_cons_app [MOVE; DOWN] [] SINGLE).
  apply Permutation_refl.
Defined.

(** ** The event record *)

Lemma Read_event_total (o : ByteOrder) (b : list byte) :
  length b = 28%nat -> exists e, Read_event o b = Some e.
Proof.
  intros H. bytes28 b H. eexists. reflexivity.
Qed.

Lemma Read_event_short (o : ByteOrder) (b : list byte) :
  (length b < 28)%nat -> Read_event o b = None.
Proof.
  intros H.
  do 28 (destruct b as [|? b]; [reflexivity|]).
  cbn [length] in H. lia.
Qed.

(** The low byte of a 16-bit word is the byte that was stored first in
    little-endian order, and second in big-endian order. *)
Lemma uint8_lor_shiftl (x y : Z) :
  uint8 (Z.lor x (Z.shiftl y 8)) = uint8 x.
Proof.
  unfold uint8. apply Z.bits_inj'. intros n Hn.
  rewrite !Z.testbit_mod_pow2, Z.lor_spec by lia.
  destruct (Z.ltb_spec n 8) as [Hlt|Hge]; [|reflexivity].
  rewrite Z.shiftl_spec_low by lia.
  rewrite orb_false_r. reflexivity.
Qed.

Lemma uint8_byte (x : byte) : uint8 (byte_to_Z x) = byte_to_Z x.
Proof. apply Z.mod_small. apply byte_to_Z_range. Qed.

(** On a little-endian host [Buttons] is the byte at offset 0 and
    [Modifiers] the byte at offset 1. *)
Lemma Read_event_Buttons_LittleEndian (b : list byte) :
  length b = 28%nat ->
  exists e, Read_event LittleEndian b = Some e /\
            Event_Buttons e = byte_to_Z (nth 0 b x00) /\
            Event_Modifiers e = byte_to_Z (nth 1 b x00).
Proof.
  intros H. bytes28 b H. eexists. split; [reflexivity|].
  cbn [Event_Buttons Event_Modifiers nth].
  rewrite !uint8_lor_shiftl, !uint8_byte. split; reflexivity.
Qed.

(** On a big-endian host [Buttons] is the byte at offset 1 and [Modifiers]
    the byte at offset 2. *)
Lemma Read_event_Buttons_BigEndian (b : list byte) :
  length b = 28%nat ->
  exists e, Read_event BigEndian b = Some e /\
            Event_Buttons e = byte_to_Z (nth 1 b x00) /\
            Event_Modifiers e = byte_to_Z (nth 2 b x00).
Proof.
  intros H. bytes28 b H. eexists. split; [reflexivity|].
  cbn [Event_Buttons Event_Modifiers nth].
  rewrite !uint8_lor_shiftl, !uint8_byte. split; reflexivity.
Qed.

(** C5. For every buffer of 28 bytes and either byte order the decoding
    succeeds, and it depends on the bytes alone: whatever the connection and
    its state, a [Read] whose transport read leaves these bytes in the
    buffer and reports no error returns this one event and a nil error. *)
Theorem Read_event_total_deterministic (o : ByteOrder) (b : list byte) :
  length b = 28%nat ->
  exists e,
    Read_event o b = Some e /\
    (forall b', b' = b -> Read_event o b' = Some e) /\
    (forall (C : Type) (K : Conn C) (g : GPM C),
        rr_buf (conn_Read (gpm_c g) (make_bytes 28)) = b ->
        rr_err (conn_Read (gpm_c g) (make_bytes 28)) = None ->
        snd (Read o g) = Some (e, None)).
Proof.
  intros H. destruct (Read_event_total o b H) as [e He].
  exists e. split; [exact He|]. split.
  - intros b' ->. exact He.
  - intros C K g Hb Herr. unfold Read.
    rewrite Herr, Hb, He. reflexivity.
Qed.

Lemma Read_event_total_deterministic_witness :
  exists e,
    Read_event BigEndian (repeat xff 28) = Some e /\
    (forall b', b' = repeat xff 28 -> Read_event BigEndian b' = Some e) /\
    (forall (C : Type) (K : Conn C) (g : GPM C),
        rr_buf (conn_Read (gpm_c g) (make_bytes 28)) = repeat xff 28 ->
        rr_err (conn_Read (gpm_c g) (make_bytes 28)) = None ->
        snd (Read BigEndian g) = Some (e, None)).
Proof.
  apply (Read_event_total_deterministic BigEndian (repeat xff 28)).
  reflexivity.
Defined.

(** C6. On a big-endian host the decoded [Buttons] is not the byte at offset
    0: [uint8(nativeEndian.Uint16(b[0:]))] keeps the low byte of the 16-bit
    word, which big-endian order takes from offset 1. For the record that
    starts 04 01 the field is 1, and the byte at offset 0 is 4. *)
Theorem Read_event_Buttons_offset_BigEndian :
  let b := x04 :: x01 :: repeat x00 26 in
  length b = 28%nat /\
  init BigEndian = BigEndian /\
  byte_to_Z (nth 0 b x00) = 4 /\
  exists e, Read_event (init BigEndian) b = Some e /\
            Event_Buttons e = 1 /\
            Event_Buttons e <> byte_to_Z (nth 0 b x00).
Proof.
  cbv zeta. repeat split.
  eexists. split; [reflexivity|]. split; [reflexivity|].
  vm_compute. discriminate.
Qed.

(** ** Read *)

Section ReadProperties.

Context {C : Type} {K : Conn C} {L : StreamConn C}.
Variable nativeEndian : ByteOrder.

Lemma Read_buffer_len (g : GPM C) :
  length (rr_buf (conn_Read (gpm_c g) (make_bytes 28))) = 28%nat.
Proof. rewrite conn_Read_len. reflexivity. Qed.

Lemma Read_transport_error (g : GPM C) (err : error) :
  rr_err (conn_Read (gpm_c g) (make_bytes 28)) = Some err ->
  snd (Read nativeEndian g) = Some (Event_zero, Some err).
Proof. intros H. unfold Read. rewrite H. reflexivity. Qed.

Lemma Read_transport_ok (g : GPM C) :
  rr_err (conn_Read (gpm_c g) (make_bytes 28)) = None ->
  exists e,
    Read_event nativeEndian (rr_buf (conn_Read (gpm_c g) (make_bytes 28)))
    = Some e /\
    snd (Read nativeEndian g) = Some (e, None).
Proof.
  intros H.
  destruct (Read_event_total nativeEndian _ (Read_buffer_len g)) as [e He].
  exists e. split; [exact He|].
  unfold Read. rewrite H, He. reflexivity.
Qed.

(** [Read] never panics. *)
Lemma Read_returns (g : GPM C) :
  exists e err, snd (Read nativeEndian g) = Some (e, err).
Proof.
  destruct (rr_err (conn_Read (gpm_c g) (make_bytes 28))) as [err|] eqn:E.
  - exists Event_zero, (Some err). apply Read_transport_error, E.
  - destruct (Read_transport_ok g E) as (e & _ & He).
    exists e, None. exact He.
Qed.

End ReadProperties.

(** C9. Whenever [Read] returns an error, the event returned with it is
    [Event{}], every field zero. *)
Theorem Read_error_Event_zero
    (nativeEndian : ByteOrder) (C : Type) (K : Conn C) (g : GPM C)
    (e : Event) (err : error) :
  snd (Read nativeEndian g) = Some (e, Some err) -> e = Event_zero.
Proof.
  unfold Read.
  destruct (rr_err (conn_Read (gpm_c g) (make_bytes 28))) as [err'|].
  - cbn [snd]. intros [= <- _]. reflexivity.
  - cbn [snd].
    destruct (Read_event nativeEndian _) as [e'|]; cbn [bind];
      discriminate.
Qed.

Lemma Read_error_Event_zero_witness :
  snd (Read LittleEndian (mkGPM (mkSocket [Failure ErrClosed] [] false) 4 1234))
  = Some (Event_zero, Some ErrClosed) /\
  Event_zero = Event_zero.
Proof.
  split; [reflexivity|].
  apply (Read_error_Event_zero LittleEndian Socket Socket_Conn
           (mkGPM (mkSocket [Failure ErrClosed] [] false) 4 1234)
           Event_zero ErrClosed).
  reflexivity.
Defined.

(** A socket on which the first ten bytes of [move_record] have arrived:
    the transport read yields 10 bytes and no error, and [Read] returns a nil
    error with an event made of the ten bytes and eighteen zeros (the row,
    the type and all later fields are lost). *)
Lemma Read_short_read_not_detected :
  let g := mkGPM (mkSocket [Bytes (firstn 10 move_record)] [] false) 4 1234 in
  rr_n (conn_Read (gpm_c g) (make_bytes 28)) = 10 /\
  rr_err (conn_Read (gpm_c g) (make_bytes 28)) = None /\
  snd (Read LittleEndian g)
  = Some (mkEvent 0 0 0 0 1 190 0 0 0 0 0 0, None) /\
  ~ short_reads_fail.
Proof.
  cbv zeta. split; [reflexivity|]. split; [reflexivity|].
  split; [reflexivity|].
  intros Hclaim.
  destruct (Hclaim LittleEndian Socket Socket_Conn Socket_StreamConn
              (mkGPM (mkSocket [Bytes (firstn 10 move_record)] [] false)
                     4 1234))
    as (e & err & H).
  - vm_compute. reflexivity.
  - vm_compute in H. discriminate H.
Qed.

(** C1, as the code has it. [Read] fails, with [Event{}] and the error,
    exactly when the transport read reports an error, as a stream socket
    does whenever it yields zero bytes (a closed connection). A read that
    yields fewer than 28 bytes without an error is not told apart from a full
    one: [Read] returns a nil error and the event decoded from the buffer as
    the read left it. Nothing is kept for a later call: the result is a
    function of this call's transport read into a fresh buffer, and the
    [GPM] value changes in its connection only. *)
Theorem Read_fails_iff_transport_error
    (nativeEndian : ByteOrder) (C : Type) (K : Conn C) (L : StreamConn C)
    (g : GPM C) :
  Read_follows_transport nativeEndian g.
Proof.
  unfold Read_follows_transport. cbv zeta.
  split; [|split].
  - intros err H. unfold Read. rewrite H. reflexivity.
  - intros Hn.
    destruct (rr_err (conn_Read (gpm_c g) (make_bytes 28))) as [err|] eqn:E.
    + exists err. unfold Read. rewrite E. reflexivity.
    + exfalso. apply (conn_Read_zero (gpm_c g) (make_bytes 28)).
      * discriminate.
      * exact Hn.
      * exact E.
  - intros H.
    destruct (Read_event_total nativeEndian _ (Read_buffer_len g)) as [e He].
    exists e. split; [exact He|].
    unfold Read. rewrite H, He. reflexivity.
Qed.

(** On the scripted socket: a closed connection, a short read, and the
    second half of a record arriving at a later call, which is decoded on its
    own from offset 0. *)
Lemma Read_fails_iff_transport_error_witness :
  Read_follows_transport LittleEndian
    (mkGPM (mkSocket [Bytes []] [] false) 4 1234) /\
  snd (Read LittleEndian (mkGPM (mkSocket [Bytes []] [] false) 4 1234))
  = Some (Event_zero, Some EOF) /\
  (let g := mkGPM (mkSocket [Bytes (firstn 10 move_record);
                             Bytes (skipn 10 move_record)] [] false)
                  4 1234 in
   snd (Read LittleEndian g)
   = Some (mkEvent 0 0 0 0 1 190 0 0 0 0 0 0, None) /\
   snd (Read LittleEndian (fst (Read LittleEndian g)))
   = Some (mkEvent 28 0 1 0 0 0 0 0 0 0 0 0, None)).
Proof.
  split.
  - apply (Read_fails_iff_transport_error LittleEndian Socket Socket_Conn
             Socket_StreamConn (mkGPM (mkSocket [Bytes []] [] false) 4 1234)).
  - split; [reflexivity|]. cbv zeta. split; reflexivity.
Defined.

(** C3. The 28 bytes of a move event (type [MOVE], x 190, y 28, dy 1, all
    else zero) decode to that event, and the event renders with an empty
    [buttons:] field, not with [buttons:none]: [Buttons(0).String()] is the
    empty string. *)
Theorem Read_move_event_String :
  Read_event LittleEndian move_record = Some move_event /\
  snd (Read LittleEndian (mkGPM (mkSocket [Bytes move_record] [] false) 4 1234))
  = Some (move_event, None) /\
  Event_String move_event
  = "type:move[buttons:, modifiers:0, vc:0] x:190[dx:0] y:28[dy:1], clicks:0 margin:, wdx:0, wdy:0"%string /\
  Event_String move_event
  <> "type:move[buttons:none, modifiers:0, vc:0] x:190[dx:0] y:28[dy:1], clicks:0 margin:, wdx:0, wdy:0"%string.
Proof.
  split; [reflexivity|]. split; [reflexivity|]. split; [reflexivity|].
  intros H. vm_compute in H. discriminate H.
Qed.

(** * Further properties *)

(** ** The byte-order probe *)


(** ** Flag rendering, in general *)

Lemma fold_flag_step (v : Z) (table : list (Z * string)) (s : list string) :
  fold_left (flag_step v) table s = s ++ map snd (filter (flag_set v) table).
Proof.
  revert s.
  induction table as [|fl table IH]; intros s; cbn [fold_left filter map].
  - symmetry. apply app_nil_r.
  - rewrite IH. unfold flag_step, append.
    destruct (flag_set v fl); cbn [map]; [rewrite <- app_assoc|];
      reflexivity.
Qed.

(** Each [String] method renders its table: the labels of the flags that
    have a bit in common with the value, in the order of the table, joined
    by commas. *)
Theorem String_renders_table :
  (forall b, Buttons_String b = render_flags Buttons_flags b) /\
  (forall e, EventType_String e = render_flags EventType_flags e) /\
  (forall m, Margin_String m = render_flags Margin_flags m).
Proof.
  repeat split; intros v; unfold render_flags;
    rewrite <- (app_nil_l (map snd _)), <- fold_flag_step; reflexivity.
Qed.

(** [EventType.String] looks at the eleven declared bits only and
    [Margin.String] at the four declared bits only. *)
Theorem String_ignores_undeclared_bits :
  (forall e, EventType_String e = EventType_String (Z.land e 2047)) /\
  (forall m, Margin_String m = Margin_String (Z.land m 15)).
Proof.
  split.
  - intros e. unfold EventType_String.
    rewrite !(land_mask_flag e 2047) by reflexivity. reflexivity.
  - intros m. unfold Margin_String.
    rewrite !(land_mask_flag m 15) by reflexivity. reflexivity.
Qed.

Lemma below_In (n : nat) (z : Z) : 0 <= z < Z.of_nat n -> In z (below n).
Proof.
  intros Hz. unfold below. apply in_map_iff. exists (Z.to_nat z).
  split; [lia|]. apply in_seq. lia.
Qed.

Lemma forallb_below (n : nat) (P : Z -> bool) :
  forallb P (below n) = true ->
  forall z, 0 <= z < Z.of_nat n -> P z = true.
Proof.
  intros H z Hz. rewrite forallb_forall in H. apply H, below_In, Hz.
Qed.

Lemma land_ones_range (v k : Z) :
  0 <= k -> 0 <= Z.land v (Z.ones k) < 2 ^ k.
Proof.
  intros Hk. rewrite Z.land_ones by lia. apply Z.mod_pos_bound. lia.
Qed.

Lemma Buttons_String_mask (b : Buttons) :
  Buttons_String b = Buttons_String (Z.land b (Z.ones 6)).
Proof.
  unfold Buttons_String.
  rewrite !(land_mask_flag b (Z.ones 6)) by reflexivity. reflexivity.
Qed.

Lemma EventType_String_mask (e : EventType) :
  EventType_String e = EventType_String (Z.land e (Z.ones 11)).
Proof.
  unfold EventType_String.
  rewrite !(land_mask_flag e (Z.ones 11)) by reflexivity. reflexivity.
Qed.

Lemma Margin_String_mask (m : Margin) :
  Margin_String m = Margin_String (Z.land m (Z.ones 4)).
Proof.
  unfold Margin_String.
  rewrite !(land_mask_flag m (Z.ones 4)) by reflexivity. reflexivity.
Qed.

(** Parsing a rendering gives the declared bits of the value back. *)
Lemma parse_Buttons_String (b : Buttons) :
  parse_flags Buttons_flags (Buttons_String b) = Z.land b 63.
Proof.
  rewrite Buttons_String_mask.
  apply Z.eqb_eq.
  apply (forallb_below 64
           (fun v => parse_flags Buttons_flags (Buttons_String v) =? v)).
  - vm_compute. reflexivity.
  - apply (land_ones_range b 6). lia.
Qed.

Lemma parse_EventType_String (e : EventType) :
  parse_flags EventType_flags (EventType_String e) = Z.land e 2047.
Proof.
  rewrite EventType_String_mask.
  apply Z.eqb_eq.
  apply (forallb_below 2048
           (fun v => parse_flags EventType_flags (EventType_String v) =? v)).
  - vm_compute. reflexivity.
  - apply (land_ones_range e 11). lia.
Qed.

Lemma parse_Margin_String (m : Margin) :
  parse_flags Margin_flags (Margin_String m) = Z.land m 15.
Proof.
  rewrite Margin_String_mask.
  apply Z.eqb_eq.
  apply (forallb_below 16
           (fun v => parse_flags Margin_flags (Margin_String v) =? v)).
  - vm_compute. reflexivity.
  - apply (land_ones_range m 4). lia.
Qed.

(** A rendering tells the declared flags of its value: two values render
    alike exactly when they agree on the declared bits (six for [Buttons],
    eleven for [EventType], four for [Margin]). *)
Theorem String_tells_declared_flags :
  (forall b b', Buttons_String b = Buttons_String b'
                <-> Z.land b 63 = Z.land b' 63) /\
  (forall e e', EventType_String e = EventType_String e'
                <-> Z.land e 2047 = Z.land e' 2047) /\
  (forall m m', Margin_String m = Margin_String m'
                <-> Z.land m 15 = Z.land m' 15).
Proof.
  split; [|split]; intros v v'; split; intros H.
  - rewrite <- !parse_Buttons_String, H. reflexivity.
  - rewrite (Buttons_String_mask v), (Buttons_String_mask v').
    change (Z.ones 6) with 63. rewrite H. reflexivity.
  - rewrite <- !parse_EventType_String, H. reflexivity.
  - rewrite (EventType_String_mask v), (EventType_String_mask v').
    change (Z.ones 11) with 2047. rewrite H. reflexivity.
  - rewrite <- !parse_Margin_String, H. reflexivity.
  - rewrite (Margin_String_mask v), (Margin_String_mask v').
    change (Z.ones 4) with 15. rewrite H. reflexivity.
Qed.

(** A rendering is the empty string exactly when no declared flag is set.
    For [Buttons] this includes the value 0, [B_NONE]. *)
Theorem String_empty_iff :
  (forall b, Buttons_String b = ""%string <-> Z.land b 63 = 0) /\
  (forall e, EventType_String e = ""%string <-> Z.land e 2047 = 0) /\
  (forall m, Margin_String m = ""%string <-> Z.land m 15 = 0).
Proof.
  split; [|split]; intros v; split; intros H.
  - rewrite <- parse_Buttons_String, H. reflexivity.
  - rewrite Buttons_String_mask. change (Z.ones 6) with 63.
    rewrite H. reflexivity.
  - rewrite <- parse_EventType_String, H. reflexivity.
  - rewrite EventType_String_mask. change (Z.ones 11) with 2047.
    rewrite H. reflexivity.
  - rewrite <- parse_Margin_String, H. reflexivity.
  - rewrite Margin_String_mask. change (Z.ones 4) with 15.
    rewrite H. reflexivity.
Qed.

(** ** The handshake record, for all inputs *)

(** Whatever the configuration and the ids, the six stores of [NewGPM] stay
    inside the 16 bytes, and the record holds the low 16 bits of the masks
    and modifiers and the low 32 bits of the ids. *)
Lemma NewGPM_gpmConnect_fields
    (o : ByteOrder) (conf : GPMConnect) (pid tty : Z) :
  exists b,
    NewGPM_gpmConnect o conf pid tty = Some b /\
    length b = 16%nat /\
    u16 o b 0 = Some (uint16 (EventMask conf)) /\
    u16 o b 2 = Some (uint16 (DefaultMask conf)) /\
    u16 o b 4 = Some (uint16 (MinMod conf)) /\
    u16 o b 6 = Some (uint16 (MaxMod conf)) /\
    u32 o b 8 = Some (uint32 pid) /\
    u32 o b 12 = Some (uint32 tty).
Proof.
  destruct o;
    (eexists; split;
      [cbv [NewGPM_gpmConnect through_slice slice_from bind make_bytes repeat
            PutUint16 PutUint32 firstn skipn app length Nat.leb];
       reflexivity|]);
    unfold u16, u32, slice_from;
    cbn [length skipn Nat.leb bind Uint16 Uint32];
    rewrite !byte_to_Z_of_Z, !bytes32_join, !bytes16_join;
    fold (uint16 (uint16 (EventMask conf)));
    fold (uint16 (uint16 (DefaultMask conf)));
    fold (uint16 (MinMod conf)); fold (uint16 (MaxMod conf));
    fold (uint32 (uint32 pid)); fold (uint32 (uint32 tty));
    unfold uint16, uint32; rewrite !Z.mod_mod by lia;
    repeat split; reflexivity.
Qed.

(** [NewGPM] never panics: for every connection, every configuration and
    every outcome of [getTTY], [net.Dial] and [os.Getpid] it returns, either
    a [GPM] or an error, and the record it builds always has 16 bytes. *)
Theorem NewGPM_returns
    (o : ByteOrder) (C : Type) (K : Conn C)
    (tty : result Z) (Dial : result C) (pid : Z) (conf : GPMConnect) :
  (exists r, NewGPM o tty Dial pid conf = Some r) /\
  (forall t, exists b, NewGPM_gpmConnect o conf pid t = Some b /\
                       length b = 16%nat).
Proof.
  split.
  - unfold NewGPM. destruct tty as [t|e]; [|eexists; reflexivity].
    destruct Dial as [c|e]; [|eexists; reflexivity].
    destruct (NewGPM_gpmConnect_fields o conf pid t) as (b & -> & _).
    cbn [bind]. destruct (wr_err _); eexists; reflexivity.
  - intros t.
    destruct (NewGPM_gpmConnect_fields o conf pid t) as (b & Hb & Hl & _).
    exists b. split; assumption.
Qed.

(** The handshake record tells its inputs apart: two well-formed
    configurations with 32-bit ids that give the same record are the same
    configuration with the same ids. *)
Theorem NewGPM_gpmConnect_injective
    (o : ByteOrder) (conf conf' : GPMConnect) (pid pid' tty tty' : Z) :
  GPMConnect_wf conf -> GPMConnect_wf conf' ->
  is_int32 pid -> is_int32 pid' -> is_int32 tty -> is_int32 tty' ->
  NewGPM_gpmConnect o conf pid tty = NewGPM_gpmConnect o conf' pid' tty' ->
  conf = conf' /\ pid = pid' /\ tty = tty'.
Proof.
  intros (He & Hd & Hm & Hx) (He' & Hd' & Hm' & Hx') Hp Hp' Ht Ht' Heq.
  destruct (NewGPM_gpmConnect_fields o conf pid tty)
    as (b & Hb & _ & F0 & F2 & F4 & F6 & F8 & F12).
  destruct (NewGPM_gpmConnect_fields o conf' pid' tty')
    as (b' & Hb' & _ & G0 & G2 & G4 & G6 & G8 & G12).
  rewrite Hb, Hb' in Heq. injection Heq as <-.
  rewrite F0 in G0. rewrite F2 in G2. rewrite F4 in G4. rewrite F6 in G6.
  rewrite F8 in G8. rewrite F12 in G12.
  injection G0 as E0. injection G2 as E2. injection G4 as E4.
  injection G6 as E6. injection G8 as E8. injection G12 as E12.
  rewrite !uint16_small in E0, E2, E4, E6 by assumption.
  apply (f_equal int32) in E8. apply (f_equal int32) in E12.
  rewrite !int32_uint32 in E8, E12 by assumption.
  destruct conf, conf'; cbn in *. subst. repeat split; reflexivity.
Qed.

Lemma NewGPM_gpmConnect_injective_witness :
  DefaultConf = mkGPMConnect 65535 65535 0 65535 /\ 1234 = 1234 /\ 4 = 4.
Proof.
  apply (NewGPM_gpmConnect_injective LittleEndian
           DefaultConf (mkGPMConnect 65535 65535 0 65535) 1234 1234 4 4).
  - unfold GPMConnect_wf, is_uint16, DefaultConf, uint16. cbn. lia.
  - unfold GPMConnect_wf, is_uint16. simpl. lia.
  - unfold is_int32. lia.
  - unfold is_int32. lia.
  - unfold is_int32. lia.
  - unfold is_int32. lia.
  - reflexivity.
Defined.

(** ** The event record as numbers *)

Lemma lor_shiftl_add (x y k : Z) :
  0 <= k -> 0 <= x < 2 ^ k -> Z.lor x (Z.shiftl y k) = x + 2 ^ k * y.
Proof.
  intros Hk Hx.
  assert (Hland : Z.land x (Z.shiftl y k) = 0).
  { apply Z.bits_inj'. intros n Hn.
    rewrite Z.land_spec, Z.bits_0.
    destruct (Z.ltb_spec n k) as [Hlt|Hge].
    - rewrite Z.shiftl_spec_low by lia. apply andb_false_r.
    - rewrite <- (Z.mod_small x (2 ^ k)) by lia.
      rewrite Z.mod_pow2_bits_high by lia. reflexivity. }
  rewrite <- Z.lxor_lor by exact Hland.
  rewrite <- Z.add_nocarry_lxor by exact Hland.
  rewrite Z.shiftl_mul_pow2 by lia. lia.
Qed.

Lemma Uint16_value (o : ByteOrder) (b0 b1 : byte) (rest : list byte) :
  Uint16 o (b0 :: b1 :: rest)
  = Some match o with
         | LittleEndian => byte_to_Z b0 + 2 ^ 8 * byte_to_Z b1
         | BigEndian => 2 ^ 8 * byte_to_Z b0 + byte_to_Z b1
         end.
Proof.
  pose proof (byte_to_Z_range b0). pose proof (byte_to_Z_range b1).
  destruct o; cbn [Uint16]; rewrite lor_shiftl_add by lia; f_equal; lia.
Qed.

Lemma Uint32_value (o : ByteOrder) (b0 b1 b2 b3 : byte) (rest : list byte) :
  Uint32 o (b0 :: b1 :: b2 :: b3 :: rest)
  = Some match o with
         | LittleEndian =>
             byte_to_Z b0 + 2 ^ 8 * byte_to_Z b1
             + 2 ^ 16 * byte_to_Z b2 + 2 ^ 24 * byte_to_Z b3
         | BigEndian =>
             2 ^ 24 * byte_to_Z b0 + 2 ^ 16 * byte_to_Z b1
             + 2 ^ 8 * byte_to_Z b2 + byte_to_Z b3
         end.
Proof.
  pose proof (byte_to_Z_range b0). pose proof (byte_to_Z_range b1).
  pose proof (byte_to_Z_range b2). pose proof (byte_to_Z_range b3).
  destruct o; cbn [Uint32];
    rewrite (lor_shiftl_add _ _ 8) by lia;
    rewrite (lor_shiftl_add _ _ 16) by lia;
    rewrite (lor_shiftl_add _ _ 24) by lia; f_equal; lia.
Qed.

Lemma u16_word16 (o : ByteOrder) (b : list byte) (i : nat) :
  (i + 2 <= length b)%nat -> u16 o b i = Some (word16 o b i).
Proof.
  intros H. unfold u16, slice_from.
  destruct (Nat.leb_spec i (length b)) as [_|]; [|lia]. cbn [bind].
  unfold word16, byte_at.
  assert (Hs : (2 <= length (skipn i b))%nat) by (rewrite length_skipn; lia).
  pose proof (nth_skipn i b 0 x00) as N0. rewrite Nat.add_0_r in N0.
  pose proof (nth_skipn i b 1 x00) as N1.
  rewrite <- N0, <- N1.
  destruct (skipn i b) as [|b0 [|b1 rest]]; cbn [length] in Hs; try lia.
  rewrite Uint16_value. destruct o; reflexivity.
Qed.

Lemma u32_word32 (o : ByteOrder) (b : list byte) (i : nat) :
  (i + 4 <= length b)%nat -> u32 o b i = Some (word32 o b i).
Proof.
  intros H. unfold u32, slice_from.
  destruct (Nat.leb_spec i (length b)) as [_|]; [|lia]. cbn [bind].
  unfold word32, byte_at.
  assert (Hs : (4 <= length (skipn i b))%nat) by (rewrite length_skipn; lia).
  pose proof (nth_skipn i b 0 x00) as N0. rewrite Nat.add_0_r in N0.
  pose proof (nth_skipn i b 1 x00) as N1.
  pose proof (nth_skipn i b 2 x00) as N2.
  pose proof (nth_skipn i b 3 x00) as N3.
  rewrite <- N0, <- N1, <- N2, <- N3.
  destruct (skipn i b) as [|b0 [|b1 [|b2 [|b3 rest]]]];
    cbn [length] in Hs; try lia.
  rewrite Uint32_value. destruct o; reflexivity.
Qed.

Lemma word16_range (o : ByteOrder) (b : list byte) (i : nat) :
  is_uint16 (word16 o b i).
Proof.
  unfold is_uint16, word16, byte_at.
  pose proof (byte_to_Z_range (nth i b x00)).
  pose proof (byte_to_Z_range (nth (i + 1) b x00)).
  destruct o; lia.
Qed.

Lemma word32_range (o : ByteOrder) (b : list byte) (i : nat) :
  is_uint32 (word32 o b i).
Proof.
  unfold is_uint32, word32, byte_at.
  pose proof (byte_to_Z_range (nth i b x00)).
  pose proof (byte_to_Z_range (nth (i + 1) b x00)).
  pose proof (byte_to_Z_range (nth (i + 2) b x00)).
  pose proof (byte_to_Z_range (nth (i + 3) b x00)).
  destruct o; lia.
Qed.

Lemma uint8_word16 (o : ByteOrder) (b : list byte) (i : nat) :
  uint8 (word16 o b i)
  = byte_at b (match o with LittleEndian => i | BigEndian => i + 1 end).
Proof.
  unfold uint8, word16, byte_at.
  pose proof (byte_to_Z_range (nth i b x00)).
  pose proof (byte_to_Z_range (nth (i + 1) b x00)).
  change (2 ^ 8) with 256 in *.
  destruct o; Z.div_mod_to_equations; lia.
Qed.

Lemma uint16_word32 (o : ByteOrder) (b : list byte) (i : nat) :
  uint16 (word32 o b i)
  = word16 o b (match o with LittleEndian => i | BigEndian => i + 2 end).
Proof.
  unfold uint16, word32, word16, byte_at.
  destruct o;
    [|replace (i + 2 + 1)%nat with (i + 3)%nat by lia].
  all: pose proof (byte_to_Z_range (nth i b x00)).
  all: pose proof (byte_to_Z_range (nth (i + 1) b x00)).
  all: pose proof (byte_to_Z_range (nth (i + 2) b x00)).
  all: pose proof (byte_to_Z_range (nth (i + 3) b x00)).
  all: set (b0 := byte_to_Z (nth i b x00)) in *.
  all: set (b1 := byte_to_Z (nth (i + 1) b x00)) in *.
  all: set (b2 := byte_to_Z (nth (i + 2) b x00)) in *.
  all: set (b3 := byte_to_Z (nth (i + 3) b x00)) in *.
  - replace (b0 + 2 ^ 8 * b1 + 2 ^ 16 * b2 + 2 ^ 24 * b3)
      with (b0 + 2 ^ 8 * b1 + (b2 + 2 ^ 8 * b3) * 2 ^ 16) by lia.
    rewrite Z.mod_add by lia. apply Z.mod_small. lia.
  - replace (2 ^ 24 * b0 + 2 ^ 16 * b1 + 2 ^ 8 * b2 + b3)
      with (2 ^ 8 * b2 + b3 + (2 ^ 8 * b0 + b1) * 2 ^ 16) by lia.
    rewrite Z.mod_add by lia. apply Z.mod_small. lia.
Qed.

Lemma Read_event_as_layout (o : ByteOrder) (b : list byte) :
  length b = 28%nat -> Read_event o b = Some (Read_layout o b).
Proof.
  intros H. unfold Read_event.
  rewrite !u16_word16, !u32_word32 by lia. cbn [bind].
  unfold Read_layout.
  rewrite !uint8_word16, uint16_word32.
  destruct o; reflexivity.
Qed.

(** A record of 28 bytes decodes to [Read_layout]: in either byte order
    every multi-byte field is the number at its offset in [Gpm_Event];
    [Buttons] and [Modifiers] are the bytes at offsets 0 and 1 on a
    little-endian host and the bytes at offsets 1 and 2 on a big-endian one;
    [Type] is the 16-bit word at offset 12 (little-endian) or 14
    (big-endian), the other half of the 32-bit field being dropped. *)
Theorem Read_event_layout (o : ByteOrder) (b : list byte) :
  length b = 28%nat -> Read_event o b = Some (Read_layout o b).
Proof. exact (Read_event_as_layout o b). Qed.

Lemma Read_event_layout_witness :
  Read_event BigEndian (x04 :: x01 :: repeat xff 26)
  = Some (Read_layout BigEndian (x04 :: x01 :: repeat xff 26)).
Proof.
  apply (Read_event_layout BigEndian (x04 :: x01 :: repeat xff 26)).
  reflexivity.
Defined.

Lemma to_signed_range (w z : Z) :
  0 < w -> - 2 ^ (w - 1) <= to_signed w z < 2 ^ (w - 1).
Proof.
  intros Hw. unfold to_signed.
  assert (Hp : 2 ^ w = 2 * 2 ^ (w - 1)).
  { rewrite <- Z.pow_succ_r by lia. f_equal. lia. }
  assert (Hm : 0 <= z mod 2 ^ w < 2 ^ w) by (apply Z.mod_pos_bound; lia).
  destruct (Z.ltb_spec (z mod 2 ^ w) (2 ^ (w - 1))); lia.
Qed.

Lemma Read_layout_wf (o : ByteOrder) (b : list byte) :
  Event_wf (Read_layout o b).
Proof.
  unfold Event_wf, Read_layout, int16, int32, is_int32.
  cbn [Event_Buttons Event_Modifiers Event_VC Event_DX Event_DY Event_X
       Event_Y Event_Type Event_Clicks Event_Margin Event_WDX Event_WDY].
  pose proof (fun z => to_signed_range 16 z ltac:(lia)) as H16.
  pose proof (fun z => to_signed_range 32 z ltac:(lia)) as H32.
  change (16 - 1) with 15 in H16. change (32 - 1) with 31 in H32.
  repeat split;
    try apply H16; try apply H32;
    try apply word16_range; try apply word32_range;
    try apply byte_to_Z_range.
Qed.

(** Every event that [Read] returns, with or without an error, has each of
    its fields in the range of the field's Go type, in either byte order and
    on every stream connection. *)
Theorem Read_Event_wf
    (o : ByteOrder) (C : Type) (K : Conn C) (L : StreamConn C) (g : GPM C)
    (e : Event) (err : option error) :
  snd (Read o g) = Some (e, err) -> Event_wf e.
Proof.
  unfold Read.
  destruct (rr_err (conn_Read (gpm_c g) (make_bytes 28))) as [err'|].
  - cbn [snd]. intros [= <- _].
    unfold Event_wf, Event_zero, is_uint16, is_uint32, is_int32.
    cbn. lia.
  - cbn [snd]. rewrite Read_event_as_layout by apply Read_buffer_len.
    cbn [bind]. intros [= <- _]. apply Read_layout_wf.
Qed.

Lemma Read_Event_wf_witness :
  Event_wf (mkEvent 255 255 65535 (-1) (-1) (-1) (-1) 65535 (-1)
                    4294967295 (-1) (-1)).
Proof.
  apply (Read_Event_wf LittleEndian Socket Socket_Conn Socket_StreamConn
           (mkGPM (mkSocket [Bytes (repeat xff 28)] [] false) 4 1234)
           (mkEvent 255 255 65535 (-1) (-1) (-1) (-1) 65535 (-1)
                    4294967295 (-1) (-1))
           None).
  reflexivity.
Defined.

(** [Read] keeps the low 16 bits of the 32-bit type field only, and the
    rendering of the type does not notice: the event's type renders as the
    whole 32-bit word would. *)
Theorem Read_event_Type_rendering (o : ByteOrder) (b : list byte) :
  length b = 28%nat ->
  exists e w,
    Read_event o b = Some e /\ u32 o b 12 = Some w /\
    Event_Type e = w mod 2 ^ 16 /\
    EventType_String (Event_Type e) = EventType_String w.
Proof.
  intros H. destruct (Read_event_total o b H) as [e He].
  exists e, (word32 o b 12).
  split; [exact He|]. split; [apply u32_word32; lia|].
  assert (Ht : Event_Type e = word32 o b 12 mod 2 ^ 16).
  { unfold Read_event in He.
    rewrite !u16_word16, !u32_word32 in He by lia. cbn [bind] in He.
    injection He as <-. reflexivity. }
  split; [exact Ht|]. rewrite Ht.
  rewrite (EventType_String_mask (word32 o b 12 mod 2 ^ 16)).
  rewrite (EventType_String_mask (word32 o b 12)).
  rewrite <- (Z.land_ones _ 16) by lia.
  rewrite <- Z.land_assoc. reflexivity.
Qed.

Lemma Read_event_Type_rendering_witness :
  exists e w,
    Read_event LittleEndian (repeat xff 28) = Some e /\
    u32 LittleEndian (repeat xff 28) 12 = Some w /\
    Event_Type e = w mod 2 ^ 16 /\
    EventType_String (Event_Type e) = EventType_String w.
Proof.
  apply (Read_event_Type_rendering LittleEndian (repeat xff 28)).
  reflexivity.
Defined.

(** ** getTTY *)

Lemma drop_while_all (f : ascii -> bool) (s : list ascii) :
  forallb f s = true -> drop_while f s = [].
Proof.
  induction s as [|c s IH]; cbn; [reflexivity|].
  destruct (f c); cbn; [exact IH|discriminate].
Qed.

Lemma drop_while_app (f : ascii -> bool) (s t : list ascii) :
  forallb f s = true -> drop_while f (s ++ t) = drop_while f t.
Proof.
  induction s as [|c s IH]; cbn; [reflexivity|].
  destruct (f c); cbn; [exact IH|discriminate].
Qed.

Lemma drop_while_stop (f : ascii -> bool) (c : ascii) (s : list ascii) :
  f c = false -> drop_while f (c :: s) = c :: s.
Proof. intros H. cbn. rewrite H. reflexivity. Qed.



Lemma take_while_app (f : ascii -> bool) (s t : list ascii) :
  forallb f s = true -> take_while f (s ++ t) = s ++ take_while f t.
Proof.
  induction s as [|c s IH]; cbn; [reflexivity|].
  destruct (f c); cbn;
    [intros H; rewrite IH by exact H; reflexivity|discriminate].
Qed.

Lemma forallb_rev (f : ascii -> bool) (s : list ascii) :
  forallb f (rev s) = forallb f s.
Proof.
  induction s as [|c s IH]; cbn; [reflexivity|].
  rewrite forallb_app, IH. cbn. rewrite andb_true_r. apply andb_comm.
Qed.

Lemma forallb_drop_while (f g : ascii -> bool) (s : list ascii) :
  forallb f s = true -> forallb f (drop_while g s) = true.
Proof.
  induction s as [|c s IH]; cbn; [auto|].
  intros H. apply andb_prop in H. destruct H as [Hc Hs].
  destruct (g c); [apply IH, Hs|]. cbn. rewrite Hc, Hs. reflexivity.
Qed.

Lemma forallb_take_while (f g : ascii -> bool) (s : list ascii) :
  forallb f s = true -> forallb f (take_while g s) = true.
Proof.
  induction s as [|c s IH]; cbn; [auto|].
  intros H. apply andb_prop in H. destruct H as [Hc Hs].
  destruct (g c); [|reflexivity]. cbn. rewrite Hc, (IH Hs). reflexivity.
Qed.

(** [path.Base] of a directory followed by a name. *)
Lemma path_Base_name (dir name : list ascii) :
  (dir = [] \/ exists dir', dir = dir' ++ ["/"%char]) ->
  name <> [] -> forallb (fun c => negb (isSlash c)) name = true ->
  path_Base (dir ++ name) = name.
Proof.
  intros Hdir Hne Hname. unfold path_Base.
  destruct (dir ++ name) as [|p0 p] eqn:E.
  { destruct dir, name; cbn in E; try discriminate. contradiction. }
  rewrite <- E. clear E p0 p.
  assert (Hlast : exists c r, rev name = c :: r /\ isSlash c = false).
  { destruct (rev name) as [|c r] eqn:Er.
    - apply (f_equal (@rev ascii)) in Er. rewrite rev_involutive in Er.
      contradiction.
    - exists c, r. split; [reflexivity|].
      rewrite <- forallb_rev, Er in Hname. cbn in Hname.
      apply andb_prop in Hname. destruct Hname as [Hc _].
      apply negb_true_iff. exact Hc. }
  destruct Hlast as (c & r & Er & Hc).
  rewrite rev_app_distr, Er. cbn [app].
  rewrite drop_while_stop by exact Hc.
  change (c :: r ++ rev dir) with ((c :: r) ++ rev dir).
  rewrite <- Er, <- rev_app_distr, rev_involutive.
  rewrite rev_app_distr, take_while_app by (rewrite forallb_rev; exact Hname).
  assert (Ht : take_while (fun c0 => negb (isSlash c0)) (rev dir) = []).
  { destruct Hdir as [->|(dir' & ->)]; [reflexivity|].
    rewrite rev_app_distr. reflexivity. }
  rewrite Ht, app_nil_r, rev_involutive.
  destruct name; [contradiction|reflexivity].
Qed.

Lemma path_Base_notDigit (p : list ascii) :
  forallb notDigit p = true -> forallb notDigit (path_Base p) = true.
Proof.
  intros H. unfold path_Base. destruct p as [|p0 p]; [reflexivity|].
  set (q := rev (take_while _ _)).
  assert (Hq : forallb notDigit q = true).
  { unfold q. rewrite forallb_rev. apply forallb_take_while.
    rewrite forallb_rev, forallb_rev. apply forallb_drop_while.
    rewrite forallb_rev. exact H. }
  destruct q; [reflexivity|exact Hq].
Qed.

Lemma TrimFunc_digits (name ds post : list ascii) :
  forallb notDigit name = true -> forallb notDigit post = true ->
  ds <> [] -> forallb IsDigit ds = true ->
  strings_TrimFunc (name ++ ds ++ post) notDigit = ds.
Proof.
  intros Hn Hp Hne Hd. unfold strings_TrimFunc.
  rewrite drop_while_app by exact Hn.
  destruct ds as [|d ds]; [contradiction|].
  cbn [forallb] in Hd. apply andb_prop in Hd. destruct Hd as [Hd0 Hds].
  cbn [app].
  rewrite drop_while_stop by (unfold notDigit; rewrite Hd0; reflexivity).
  change (d :: ds ++ post) with ((d :: ds) ++ post).
  rewrite rev_app_distr, drop_while_app by (rewrite forallb_rev; exact Hp).
  destruct (rev (d :: ds)) as [|c r] eqn:Er.
  { apply (f_equal (@rev ascii)) in Er. rewrite rev_involutive in Er.
    discriminate. }
  assert (Hc : IsDigit c = true).
  { assert (Hall : forallb IsDigit (rev (d :: ds)) = true).
    { rewrite forallb_rev. cbn. rewrite Hd0, Hds. reflexivity. }
    rewrite Er in Hall. cbn in Hall. apply andb_prop in Hall. tauto. }
  rewrite drop_while_stop by (unfold notDigit; rewrite Hc; reflexivity).
  rewrite <- Er. apply rev_involutive.
Qed.


Lemma IsDigit_not_sign (c : ascii) :
  IsDigit c = true ->
  Ascii.eqb c "+" = false /\ Ascii.eqb c "-" = false /\ isSlash c = false.
Proof.
  destruct c as [[] [] [] [] [] [] [] []]; try discriminate;
    intros _; repeat split; reflexivity.
Qed.

Lemma plain_spec (s : list ascii) :
  forallb plain s = true ->
  forallb (fun c => negb (isSlash c)) s = true /\ forallb notDigit s = true.
Proof.
  induction s as [|c s IH]; cbn; [auto|].
  intros H. apply andb_prop in H. destruct H as [Hc Hs].
  destruct (IH Hs) as [H1 H2]. rewrite H1, H2.
  unfold plain, notDigit in *.
  apply andb_prop in Hc. destruct Hc as [Hc Hd].
  apply andb_prop in Hc. destruct Hc as [_ Hsl].
  rewrite Hsl, Hd. auto.
Qed.

Lemma digits_no_slash (s : list ascii) :
  forallb IsDigit s = true -> forallb (fun c => negb (isSlash c)) s = true.
Proof.
  induction s as [|c s IH]; cbn; [auto|].
  intros H. apply andb_prop in H. destruct H as [Hc Hs].
  rewrite (IH Hs). destruct (IsDigit_not_sign c Hc) as (_ & _ & ->).
  reflexivity.
Qed.

Lemma digit_value_range (c : ascii) :
  IsDigit c = true -> 0 <= digit_value c <= 9.
Proof.
  unfold IsDigit, digit_value. intros H. apply andb_prop in H.
  destruct H as [H1 H2]. apply Nat.leb_le in H1, H2. lia.
Qed.

Lemma digits_value_ge (ds : list ascii) (n : Z) :
  forallb IsDigit ds = true -> 0 <= n -> n <= digits_value ds n.
Proof.
  revert n. induction ds as [|c ds IH]; intros n Hd Hn; cbn; [lia|].
  cbn in Hd. apply andb_prop in Hd. destruct Hd as [Hc Hds].
  pose proof (digit_value_range c Hc).
  specialize (IH (n * 10 + digit_value c) Hds ltac:(lia)).
  unfold digits_value in IH. lia.
Qed.

(** On digits that spell a number below [2^64] the loop of [ParseUint]
    runs to the end and returns the number. *)
Lemma ParseUint_loop_digits (ds : list ascii) (n : Z) :
  forallb IsDigit ds = true -> 0 <= n -> digits_value ds n < 2 ^ 64 ->
  ParseUint_loop ds n = Ok (digits_value ds n).
Proof.
  revert n. induction ds as [|c ds IH]; intros n Hd Hn Hv; [reflexivity|].
  cbn [forallb] in Hd. apply andb_prop in Hd. destruct Hd as [Hc Hds].
  pose proof (digit_value_range c Hc) as Hr.
  assert (Hge := digits_value_ge ds (n * 10 + digit_value c) Hds ltac:(lia)).
  change (digits_value (c :: ds) n)
    with (digits_value ds (n * 10 + digit_value c)) in *.
  cbn [ParseUint_loop]. rewrite Hc. cbv zeta.
  fold (digit_value c).
  change ((2 ^ 64 - 1) / 10 + 1) with 1844674407370955162.
  change (2 ^ 64) with 18446744073709551616 in *.
  destruct (Z.geb_spec n 1844674407370955162) as [Hbig|Hsmall]; [lia|].
  rewrite (Z.mod_small (n * 10 + digit_value c)) by lia.
  destruct (Z.ltb_spec (n * 10 + digit_value c) (n * 10)) as [|_]; [lia|].
  destruct (Z.gtb_spec (n * 10 + digit_value c) (18446744073709551616 - 1))
    as [|_]; [lia|].
  cbn [orb]. apply IH; [exact Hds|lia|exact Hv].
Qed.


Lemma strconv_ParseInt_digits (ds : list ascii) :
  ds <> [] -> forallb IsDigit ds = true -> digits_value ds 0 < 2 ^ 63 ->
  strconv_ParseInt ds = Ok (digits_value ds 0).
Proof.
  intros Hne Hd Hv. destruct ds as [|d ds]; [contradiction|].
  assert (Hd0 : IsDigit d = true).
  { cbn in Hd. apply andb_prop in Hd. tauto. }
  destruct (IsDigit_not_sign d Hd0) as (Hp & Hm & _).
  unfold strconv_ParseInt. rewrite Hp, Hm. cbn [orb negb andb].
  unfold strconv_ParseUint.
  rewrite ParseUint_loop_digits by (try assumption; lia).
  destruct (Z.geb_spec (digits_value (d :: ds) 0) (2 ^ 63));
    [lia|reflexivity].
Qed.

Lemma getTTY_on_device (dir name ds post : list ascii) :
  (dir = [] \/ exists dir', dir = dir' ++ ["/"%char]) ->
  forallb plain name = true -> forallb plain post = true ->
  ds <> [] -> forallb IsDigit ds = true -> digits_value ds 0 < 2 ^ 63 ->
  getTTY (Ok (string_of_list_ascii (dir ++ name ++ ds ++ post)))
  = Ok (digits_value ds 0).
Proof.
  intros Hdir Hname Hpost Hne Hd Hv.
  destruct (plain_spec name Hname) as [Hn1 Hn2].
  destruct (plain_spec post Hpost) as [Hp1 Hp2].
  unfold getTTY. rewrite list_ascii_of_string_of_list_ascii.
  rewrite path_Base_name.
  - fold notDigit. rewrite TrimFunc_digits by assumption.
    rewrite strconv_ParseInt_digits by assumption. reflexivity.
  - exact Hdir.
  - destruct name; [destruct ds; [contradiction|discriminate]|discriminate].
  - rewrite !forallb_app, Hn1, Hp1, (digits_no_slash ds Hd). reflexivity.
Qed.

(** When standard input is a device whose name ends in a number, as
    [/dev/tty4] does, [getTTY] returns that number: for a link target made of
    a directory part, a name of ASCII characters other than slashes and
    digits, a non-empty run of digits that spells a number below [2^63],
    and possibly more such characters after it, the result is the number
    the digits spell (leading zeros allowed). *)
Theorem getTTY_device (dir name ds post : list ascii) :
  (dir = [] \/ exists dir', dir = dir' ++ ["/"%char]) ->
  forallb plain name = true -> forallb plain post = true ->
  ds <> [] -> forallb IsDigit ds = true -> digits_value ds 0 < 2 ^ 63 ->
  getTTY (Ok (string_of_list_ascii (dir ++ name ++ ds ++ post)))
  = Ok (digits_value ds 0).
Proof. exact (getTTY_on_device dir name ds post). Qed.

Lemma getTTY_device_witness :
  getTTY (Ok (string_of_list_ascii
                (list_ascii_of_string "/dev/" ++ list_ascii_of_string "tty"
                 ++ list_ascii_of_string "63" ++ [])))
  = Ok (digits_value (list_ascii_of_string "63") 0).
Proof.
  apply (getTTY_device (list_ascii_of_string "/dev/")
           (list_ascii_of_string "tty") (list_ascii_of_string "63") []).
  - right. exists (list_ascii_of_string "/dev"). reflexivity.
  - reflexivity.
  - reflexivity.
  - discriminate.
  - reflexivity.
  - vm_compute. reflexivity.
Defined.

(** The same on two link targets as they occur: a virtual console, and a
    pipe, whose inode number is taken for the terminal number. *)
Example getTTY_examples :
  getTTY (Ok "/dev/tty4"%string) = Ok 4 /\
  getTTY (Ok "pipe:[12345]"%string) = Ok 12345 /\
  getTTY (Ok "/dev/pts/3"%string) = Ok 3.
Proof. repeat split; reflexivity. Qed.

(** When the link target of standard input holds no digit, as [/dev/null]
    and [/dev/console] do, [getTTY] fails with a syntax error (and so does
    [NewGPM], before it dials). *)
Theorem getTTY_no_digit (dest : string) :
  forallb notDigit (list_ascii_of_string dest) = true ->
  getTTY (Ok dest) = Err ErrSyntax /\
  (forall (o : ByteOrder) (C : Type) (K : Conn C) (Dial : result C)
          (pid : Z) (conf : GPMConnect),
      NewGPM o (getTTY (Ok dest)) Dial pid conf = Some (Err ErrSyntax)).
Proof.
  intros H.
  assert (Hg : getTTY (Ok dest) = Err ErrSyntax).
  { unfold getTTY. fold notDigit. unfold strings_TrimFunc.
    rewrite (drop_while_all notDigit (path_Base _))
      by (apply path_Base_notDigit, H).
    reflexivity. }
  split; [exact Hg|]. intros o C K Dial pid conf. rewrite Hg. reflexivity.
Qed.

Lemma getTTY_no_digit_witness :
  getTTY (Ok "/dev/null"%string) = Err ErrSyntax /\
  (forall (o : ByteOrder) (C : Type) (K : Conn C) (Dial : result C)
          (pid : Z) (conf : GPMConnect),
      NewGPM o (getTTY (Ok "/dev/null"%string)) Dial pid conf
      = Some (Err ErrSyntax)).
Proof.
  apply (getTTY_no_digit "/dev/null"%string). reflexivity.
Defined.



(** ** The package on the scripted socket *)

(** A read into 28 bytes from an arrival of 28 bytes or more takes the
    first 28 and leaves the rest pending. *)
Lemma Socket_Read_record (rest : list Arrival) (sent : list (list byte))
    (r more : list byte) :
  length r = 28%nat ->
  Socket_Read (mkSocket (Bytes (r ++ more) :: rest) sent false)
              (make_bytes 28)
  = mkReadResult
      (mkSocket (match more with [] => rest | _ => Bytes more :: rest end)
                sent false)
      r 28 None.
Proof.
  intros H. bytes28 r H. destruct more as [|m0 more]; reflexivity.
Qed.

Lemma Read_Socket_record (o : ByteOrder) (rest : list Arrival)
    (sent : list (list byte)) (tty pid : Z) (r more : list byte) :
  length r = 28%nat ->
  Read o (mkGPM (mkSocket (Bytes (r ++ more) :: rest) sent false) tty pid)
  = (mkGPM (mkSocket (match more with
                      | [] => rest
                      | _ => Bytes more :: rest
                      end) sent false) tty pid,
     Some (Read_layout o r, None)).
Proof.
  intros H. unfold Read. cbn [gpm_c conn_Read Socket_Conn].
  rewrite Socket_Read_record by exact H.
  cbn [rr_err rr_buf rr_conn gpm_tty gpm_pid].
  rewrite Read_event_as_layout by exact H. reflexivity.
Qed.

Lemma main_loop_group (o : ByteOrder) (group : list (list byte)) :
  Forall (fun r => length r = 28%nat) group ->
  forall (fuel : nat) (rest : list Arrival) (sent : list (list byte))
         (tty pid : Z) (log : list string),
    group <> [] ->
    main_loop o (length group + fuel)
      (mkGPM (mkSocket (Bytes (concat group) :: rest) sent false) tty pid)
      log
    = main_loop o fuel (mkGPM (mkSocket rest sent false) tty pid)
        (log ++ map (render_record o) group).
Proof.
  induction 1 as [|r group Hr Hg IH]; intros fuel rest sent tty pid log Hne;
    [contradiction|].
  cbn [length Nat.add concat main_loop].
  rewrite Read_Socket_record by exact Hr.
  destruct group as [|r' group'].
  - cbn [concat map length Nat.add]. reflexivity.
  - assert (Hc : concat (r' :: group') <> []).
    { inversion Hg as [|? ? Hr' _]; subst. cbn [concat].
      destruct r'; [discriminate Hr'|discriminate]. }
    replace (match concat (r' :: group') with
             | [] => rest
             | _ :: _ => Bytes (concat (r' :: group')) :: rest
             end)
      with (Bytes (concat (r' :: group')) :: rest)
      by (destruct (concat (r' :: group')); [contradiction|reflexivity]).
    rewrite IH by discriminate.
    cbn [map]. rewrite <- app_assoc. reflexivity.
Qed.

Lemma main_loop_groups
    (o : ByteOrder) (groups : list (list (list byte))) :
  Forall whole_records groups ->
  forall (fuel : nat) (sent : list (list byte)) (tty pid : Z)
         (log : list string),
    (length (concat groups) < fuel)%nat ->
    main_loop o fuel
      (mkGPM (mkSocket (map (fun g => Bytes (concat g)) groups) sent false)
             tty pid) log
    = (log ++ map (render_record o) (concat groups), Panic EOF).
Proof.
  induction 1 as [|g groups [Hne Hg] _ IH]; intros fuel sent tty pid log Hf.
  - destruct fuel; [cbn in Hf; lia|]. cbn. rewrite app_nil_r. reflexivity.
  - cbn [concat map] in *. rewrite length_app in Hf.
    replace fuel with (length g + (fuel - length g))%nat by lia.
    rewrite main_loop_group by assumption.
    rewrite IH by lia. rewrite map_app, app_assoc. reflexivity.
Qed.

(** The loop of the example program on a stream of whole records: however
    the records are grouped into arrivals (one by one, or several in one
    arrival), each [Read] takes exactly one record of 28 bytes; the loop
    logs the rendering of every record, in order, and panics with [io.EOF]
    when the peer has closed. *)
Theorem main_loop_coalesced
    (o : ByteOrder) (groups : list (list (list byte))) :
  Forall whole_records groups ->
  forall (fuel : nat) (sent : list (list byte)) (tty pid : Z)
         (log : list string),
    (length (concat groups) < fuel)%nat ->
    main_loop o fuel
      (mkGPM (mkSocket (map (fun g => Bytes (concat g)) groups) sent false)
             tty pid) log
    = (log ++ map (render_record o) (concat groups), Panic EOF).
Proof. exact (main_loop_groups o groups). Qed.

Lemma main_loop_coalesced_witness :
  main_loop LittleEndian 4
    (mkGPM (mkSocket
              (map (fun g => Bytes (concat g))
                   [[move_record; move_record]; [move_record]])
              [] false) 4 1234) []
  = ([] ++ map (render_record LittleEndian)
               (concat [[move_record; move_record]; [move_record]]),
     Panic EOF).
Proof.
  apply (main_loop_coalesced LittleEndian
           [[move_record; move_record]; [move_record]]).
  - repeat constructor; discriminate.
  - cbn. lia.
Defined.

Lemma NewGPM_on_terminal
    (o : ByteOrder) (dir name ds post : list ascii)
    (pending : list Arrival) (sent : list (list byte))
    (pid : Z) (conf : GPMConnect) :
  (dir = [] \/ exists dir', dir = dir' ++ ["/"%char]) ->
  forallb plain name = true -> forallb plain post = true ->
  ds <> [] -> forallb IsDigit ds = true -> digits_value ds 0 < 2 ^ 32 ->
  exists b,
    NewGPM o (getTTY (Ok (string_of_list_ascii (dir ++ name ++ ds ++ post))))
           (Ok (mkSocket pending sent false)) pid conf
    = Some (Ok (mkGPM (mkSocket pending (sent ++ [b]) false)
                      (digits_value ds 0) pid)) /\
    length b = 16%nat /\
    u32 o b 12 = Some (digits_value ds 0).
Proof.
  intros Hdir Hname Hpost Hne Hd Hv.
  assert (H0 : 0 <= digits_value ds 0)
    by (apply digits_value_ge; [exact Hd|lia]).
  rewrite getTTY_on_device by (try assumption; lia).
  destruct (NewGPM_gpmConnect_fields o conf pid (digits_value ds 0))
    as (b & Hb & Hl & _ & _ & _ & _ & _ & H12).
  exists b. split; [|split; [exact Hl|]].
  - unfold NewGPM. rewrite Hb. reflexivity.
  - rewrite H12. rewrite uint32_small by (unfold is_uint32; lia).
    reflexivity.
Qed.

(** [NewGPM] on a terminal: with standard input on a device whose name ends
    in the number [N] (a link target as above, and [N] below [2^32]) and an
    open socket, [NewGPM] succeeds, has written one message, the 16-byte
    record, whose field at offset 12 reads [N], has read nothing, and
    returns a [GPM] that holds [N] and the process id. *)
Theorem NewGPM_sends_terminal_number
    (o : ByteOrder) (dir name ds post : list ascii)
    (pending : list Arrival) (sent : list (list byte))
    (pid : Z) (conf : GPMConnect) :
  (dir = [] \/ exists dir', dir = dir' ++ ["/"%char]) ->
  forallb plain name = true -> forallb plain post = true ->
  ds <> [] -> forallb IsDigit ds = true -> digits_value ds 0 < 2 ^ 32 ->
  exists b,
    NewGPM o (getTTY (Ok (string_of_list_ascii (dir ++ name ++ ds ++ post))))
           (Ok (mkSocket pending sent false)) pid conf
    = Some (Ok (mkGPM (mkSocket pending (sent ++ [b]) false)
                      (digits_value ds 0) pid)) /\
    length b = 16%nat /\
    u32 o b 12 = Some (digits_value ds 0).
Proof.
  exact (NewGPM_on_terminal o dir name ds post pending sent pid conf).
Qed.

Lemma NewGPM_sends_terminal_number_witness :
  exists b,
    NewGPM BigEndian
      (getTTY (Ok (string_of_list_ascii
                     (list_ascii_of_string "/dev/"
                      ++ list_ascii_of_string "tty"
                      ++ list_ascii_of_string "4" ++ []))))
      (Ok (mkSocket [] [] false)) 1234 DefaultConf
    = Some (Ok (mkGPM (mkSocket [] ([] ++ [b]) false)
                      (digits_value (list_ascii_of_string "4") 0) 1234)) /\
    length b = 16%nat /\
    u32 BigEndian b 12 = Some (digits_value (list_ascii_of_string "4") 0).
Proof.
  apply (NewGPM_sends_terminal_number BigEndian
           (list_ascii_of_string "/dev/") (list_ascii_of_string "tty")
           (list_ascii_of_string "4") [] [] [] 1234 DefaultConf).
  - right. exists (list_ascii_of_string "/dev"). reflexivity.
  - reflexivity.
  - reflexivity.
  - discriminate.
  - reflexivity.
  - vm_compute. reflexivity.
Defined.


